(** * wot.gameface: the Gameface resource injector, the view-event helpers,
      the debug helpers and the res_map reconciliation pipeline

    The JavaScript sources are embedded as functions over an explicit model
    of JavaScript values, with the mutable globals ([injectedResIds], the
    document body, the console) threaded as state.  The Python side of the
    repository (the res_map manager) is embedded from its specification. *)

From Stdlib Require Import ZArith Floats.SpecFloat.
From stdpp Require Import base option list strings pretty gmap fin_sets.

Set Warnings "-register-all,-clear-no-such-hyp".
Local Open Scope string_scope.
Local Open Scope list_scope.

(** ** JavaScript values *)

Module Js.

(** A JavaScript value.  Numbers are IEEE 754 doubles ([spec_float]), objects
    carry their own enumerable string-keyed properties in enumeration order,
    arrays carry their elements.  Functions and symbols are opaque. *)
Inductive value : Type :=
  | VUndefined
  | VNull
  | VBool (b : bool)
  | VNumber (x : spec_float)
  | VString (s : string)
  | VBigInt (z : Z)
  | VSymbol (description : string)
  | VFunction (name : string)
  | VArray (items : list value)
  | VObject (props : list (string * value)).

(** [typeof v] *)
Definition typeof (v : value) : string :=
  match v with
  | VUndefined => "undefined"
  | VNull => "object"
  | VBool _ => "boolean"
  | VNumber _ => "number"
  | VString _ => "string"
  | VBigInt _ => "bigint"
  | VSymbol _ => "symbol"
  | VFunction _ => "function"
  | VArray _ => "object"
  | VObject _ => "object"
  end.

(** ToBoolean: [undefined], [null], [false], [+0], [-0], [NaN], the empty
    string and [0n] are falsy, every other value is truthy. *)
Definition truthy (v : value) : bool :=
  match v with
  | VUndefined | VNull => false
  | VBool b => b
  | VNumber (S754_zero _) | VNumber S754_nan => false
  | VNumber _ => true
  | VString s => negb (String.eqb s "")
  | VBigInt z => negb (Z.eqb z 0)
  | VSymbol _ | VFunction _ | VArray _ | VObject _ => true
  end.

Definition nullish (v : value) : bool :=
  match v with
  | VUndefined | VNull => true
  | _ => false
  end.

(** Own-property lookup in a property list ([undefined] when missing). *)
Fixpoint lookup_prop (k : string) (props : list (string * value)) : value :=
  match props with
  | [] => VUndefined
  | (k', v) :: rest => if String.eqb k k' then v else lookup_prop k rest
  end.

(** [o.k] for a non-nullish [o], for property names that no prototype
    defines (the sources read [model], [ModInjectModel], [value], [styles],
    [scripts] and [modules]): only objects carry such a property. *)
Definition get_prop (o : value) (k : string) : value :=
  match o with
  | VObject props => lookup_prop k props
  | _ => VUndefined
  end.

(** Optional chaining [o?.k]. *)
Definition get_prop_opt (o : value) (k : string) : value :=
  if nullish o then VUndefined else get_prop o k.

(** [o.k = v] on a property list: an existing key keeps its position, a new
    key goes last. *)
Fixpoint set_prop (k : string) (v : value) (props : list (string * value))
  : list (string * value) :=
  match props with
  | [] => [(k, v)]
  | (k', v') :: rest =>
      if String.eqb k k' then (k, v) :: rest else (k', v') :: set_prop k v rest
  end.

(** [Object.assign(target, source)] and object spread, on property lists. *)
Definition assign_props (target source : list (string * value))
  : list (string * value) :=
  fold_left (fun acc kv => set_prop kv.1 kv.2 acc) source target.

(** Index keys of arrays and strings. *)
Definition index_key (i : nat) : string := pretty (N.of_nat i).

Fixpoint chars_from (i : nat) (s : string) : list (string * value) :=
  match s with
  | EmptyString => []
  | String c rest => (index_key i, VString (String c EmptyString)) :: chars_from (S i) rest
  end.

(** [Object.entries(v)]: [None] is the TypeError on [undefined] and [null];
    an array yields its indices, a string its characters, any other
    primitive and a function nothing. *)
Definition Object_entries (v : value) : option (list (string * value)) :=
  match v with
  | VUndefined | VNull => None
  | VObject props => Some props
  | VArray items => Some (imap (fun i x => (index_key i, x)) items)
  | VString s => Some (chars_from 0 s)
  | VBool _ | VNumber _ | VBigInt _ | VSymbol _ | VFunction _ => Some []
  end.

(** A console line: the arguments given to [console.warn] / [console.error]. *)
Definition console := list (list value).

End Js.

(** ** mods/libs/views.js *)

Module Views.
Import Js.

(** [serializeEventArgument(value)]: the returned value and the lines it
    writes with [console.warn]. *)
Definition serializeEventArgument (value : Js.value) : Js.value * console :=
  match value with
  | VUndefined => (VUndefined, [])
  | _ =>
      let t := typeof value in
      if String.eqb t "number" then (VObject [("number", value)], [])
      else if String.eqb t "boolean" then (VObject [("bool", value)], [])
      else if String.eqb t "string" then (VObject [("string", value)], [])
      else
        (VUndefined,
         match value with
         | VNull => []
         | _ => [[VString "Unsupported argument type"; VString (typeof value)]]
         end)
  end.

(** One turn of the [for ... of] loop of [createViewEventArguments]: the
    state is the [result] array and the console. *)
Definition createViewEventArguments_step
    (st : list Js.value * console) (entry : string * Js.value)
  : list Js.value * console :=
  let '(result, out) := st in
  let '(key, value) := entry in
  let '(serialized, warned) := serializeEventArgument value in
  match serialized with
  | VUndefined => (result, out ++ warned)
  | _ =>
      let spread := match serialized with VObject props => props | _ => [] end in
      (result ++
         [VObject (assign_props
                     [("__Type", VString "GFValueProxy"); ("name", VString key)]
                     spread)],
       out ++ warned)
  end.

(** [createViewEventArguments(args)]; [None] is the TypeError of
    [Object.entries] on [undefined] and [null]. *)
Definition createViewEventArguments (args : Js.value)
  : option (list Js.value * console) :=
  match Object_entries args with
  | None => None
  | Some entries => Some (fold_left createViewEventArguments_step entries ([], []))
  end.

(** The three argument types the view system accepts. *)
Definition supported (v : Js.value) : bool :=
  match v with
  | VNumber _ | VBool _ | VString _ => true
  | _ => false
  end.

Definition tag_of (v : Js.value) : string :=
  match v with
  | VNumber _ => "number"
  | VBool _ => "bool"
  | _ => "string"
  end.

(** The [GFValueProxy] entry for a key and a supported value. *)
Definition proxy (entry : string * Js.value) : Js.value :=
  VObject [("__Type", VString "GFValueProxy"); ("name", VString entry.1);
           (tag_of entry.2, entry.2)].

(** The console lines of a whole call: one warning per entry whose value is
    neither supported, [undefined] nor [null]. *)
Definition warnings_of (entries : list (string * Js.value)) : console :=
  flat_map (fun e => (serializeEventArgument e.2).2) entries.

Lemma serializeEventArgument_supported v :
  supported v = true ->
  serializeEventArgument v = (VObject [(tag_of v, v)], []).
Proof. destruct v; simpl; intros Hs; try discriminate Hs; reflexivity. Qed.

Lemma serializeEventArgument_unsupported v :
  supported v = false -> (serializeEventArgument v).1 = VUndefined.
Proof. destruct v; simpl; intros Hs; try discriminate Hs; reflexivity. Qed.

Lemma createViewEventArguments_step_supported result out k v :
  supported v = true ->
  createViewEventArguments_step (result, out) (k, v)
  = (result ++ [proxy (k, v)], out ++ (serializeEventArgument v).2).
Proof.
  intros Hs. unfold createViewEventArguments_step.
  rewrite (serializeEventArgument_supported v Hs). simpl.
  unfold proxy. simpl.
  destruct v; simpl in *; try discriminate Hs; reflexivity.
Qed.

Lemma createViewEventArguments_step_unsupported result out k v :
  supported v = false ->
  createViewEventArguments_step (result, out) (k, v)
  = (result, out ++ (serializeEventArgument v).2).
Proof.
  intros Hs. unfold createViewEventArguments_step.
  destruct v; simpl in *; try discriminate Hs; reflexivity.
Qed.

Lemma createViewEventArguments_loop entries : forall result out,
  fold_left createViewEventArguments_step entries (result, out)
  = (result ++ (proxy <$> filter (fun e => supported e.2 = true) entries),
     out ++ warnings_of entries).
Proof.
  induction entries as [|[k v] entries IH]; intros result out.
  - simpl. by rewrite !app_nil_r.
  - cbn [fold_left]. destruct (supported v) eqn:Hs.
    + rewrite createViewEventArguments_step_supported by done.
      rewrite IH. rewrite filter_cons_True by done.
      rewrite fmap_cons. unfold warnings_of. cbn [flat_map snd].
      by rewrite <- !app_assoc.
    + rewrite createViewEventArguments_step_unsupported by done.
      rewrite IH. rewrite filter_cons_False by (simpl; congruence).
      unfold warnings_of. cbn [flat_map snd]. by rewrite <- !app_assoc.
Qed.

(** C9.  [serializeEventArgument] wraps a number as [{number: v}], a boolean
    as [{bool: v}] and a string as [{string: v}], and returns [undefined] on
    every other value, [null] and [undefined] included.  Hence
    [createViewEventArguments(args)] is, in the order of
    [Object.entries(args)], exactly one [GFValueProxy] object per entry whose
    value is a number, a boolean or a string, and nothing for the others. *)
Theorem serializeEventArgument_createViewEventArguments_spec :
  (forall v : Js.value,
      (serializeEventArgument v).1 =
      match v with
      | VNumber _ => VObject [("number", v)]
      | VBool _ => VObject [("bool", v)]
      | VString _ => VObject [("string", v)]
      | _ => VUndefined
      end)
  /\ (forall args : Js.value,
        createViewEventArguments args =
        match Object_entries args with
        | None => None
        | Some entries =>
            Some (proxy <$> filter (fun e => supported e.2 = true) entries,
                  warnings_of entries)
        end)
  /\ (forall k v,
        proxy (k, v) =
        VObject [("__Type", VString "GFValueProxy"); ("name", VString k);
                 ((if typeof v =? "number" then "number"
                   else if typeof v =? "boolean" then "bool" else "string")%string, v)]).
Proof.
  split; [|split].
  - intros v. destruct v; reflexivity.
  - intros args. unfold createViewEventArguments.
    destruct (Object_entries args) as [entries|]; [|done].
    by rewrite createViewEventArguments_loop.
  - intros k v. destruct v; reflexivity.
Qed.

(** The arguments [showTooltip] sends, and an object with values the view
    system does not take. *)
Example createViewEventArguments_tooltip :
  createViewEventArguments
    (VObject [("body", VString "text"); ("header", VString "title")])
  = Some ([proxy ("body", VString "text"); proxy ("header", VString "title")], []).
Proof. reflexivity. Qed.

Example createViewEventArguments_mixed :
  createViewEventArguments
    (VObject [("on", VBool true); ("skip", VNull); ("cb", VFunction "f");
              ("id", VNumber (S754_zero false)); ("gone", VUndefined)])
  = Some ([proxy ("on", VBool true); proxy ("id", VNumber (S754_zero false))],
          [[VString "Unsupported argument type"; VString "function"]]).
Proof. reflexivity. Qed.

Example createViewEventArguments_null : createViewEventArguments VNull = None.
Proof. reflexivity. Qed.

(** *** [sendViewEvent] and the tooltip helpers *)

(** [ViewEventTypes.tooltip], the double 1. *)
Definition ViewEventTypes_tooltip : Js.value :=
  VNumber (S754_finite false 4503599627370496 (-52)).

(** [const { args, ...rest } = options]: the own properties but [args]. *)
Definition rest_without_args (entries : list (string * Js.value))
  : list (string * Js.value) :=
  filter (fun e => e.1 <> "args") entries.

(** [sendViewEvent(type, options)]: the payload handed to
    [viewEnv.handleViewEvent] and the console lines written on the way;
    [None] is a TypeError (destructuring [null], or [Object.entries] on a
    [null] [args]). *)
Definition sendViewEvent (type options : Js.value) : option (Js.value * console) :=
  match options with
  | VUndefined =>
      Some (VObject [("__Type", VString "GFViewEventProxy"); ("type", type)], [])
  | _ =>
      match Object_entries options with
      | None => None
      | Some entries =>
          let args := get_prop options "args" in
          let eventPayload :=
            assign_props [("__Type", VString "GFViewEventProxy"); ("type", type)]
                         (rest_without_args entries) in
          match args with
          | VUndefined => Some (VObject eventPayload, [])
          | _ =>
              match createViewEventArguments args with
              | None => None
              | Some (arguments, out) =>
                  Some (VObject (set_prop "arguments" (VArray arguments) eventPayload), out)
              end
          end
      end
  end.

Section Tooltips.

(** The resource ids [R.views.common.tooltip_window...("resId")] that the
    tooltip helpers default to; the resource map [R] belongs to the game. *)
Variable SimpleTooltipContent TooltipWindow : Js.value.

(** A parameter with a default value. *)
Definition or_default (d v : Js.value) : Js.value :=
  match v with VUndefined => d | _ => v end.

(** [showTooltip(header, body, contentID, decoratorID)] *)
Definition showTooltip (header body contentID decoratorID : Js.value)
  : option (Js.value * console) :=
  let header := or_default (VString "") header in
  let body := or_default (VString "") body in
  let contentID := or_default SimpleTooltipContent contentID in
  let decoratorID := or_default TooltipWindow decoratorID in
  sendViewEvent ViewEventTypes_tooltip
    (VObject [("contentID", contentID); ("decoratorID", decoratorID);
              ("targetID", VNumber (S754_zero false)); ("isMouseEvent", VBool true);
              ("on", VBool true);
              ("args", VObject [("body", body); ("header", header)])]).

(** [hideTooltip(contentID, decoratorID)] *)
Definition hideTooltip (contentID decoratorID : Js.value) : option (Js.value * console) :=
  let contentID := or_default SimpleTooltipContent contentID in
  let decoratorID := or_default TooltipWindow decoratorID in
  sendViewEvent ViewEventTypes_tooltip
    (VObject [("contentID", contentID); ("decoratorID", decoratorID);
              ("targetID", VNumber (S754_zero false)); ("on", VBool false)]).

End Tooltips.

Lemma eqb_string_decide (a b : string) : String.eqb a b = bool_decide (a = b).
Proof.
  destruct (String.eqb_spec a b) as [->|Hne].
  - by rewrite bool_decide_eq_true_2.
  - by rewrite bool_decide_eq_false_2.
Qed.

Lemma lookup_set_prop k k' v props :
  lookup_prop k (set_prop k' v props)
  = if decide (k = k') then v else lookup_prop k props.
Proof.
  induction props as [|[k0 v0] props IH]; cbn [set_prop lookup_prop].
  - rewrite eqb_string_decide. by case_bool_decide; case_decide.
  - rewrite (eqb_string_decide k' k0). case_bool_decide as Hk'; cbn [lookup_prop].
    + subst k0. rewrite (eqb_string_decide k k'). by case_bool_decide; case_decide.
    + rewrite (eqb_string_decide k k0), IH.
      case_bool_decide; case_decide; congruence.
Qed.

Lemma keys_set_prop k v props :
  (set_prop k v props).*1 = if decide (k ∈ props.*1) then props.*1 else props.*1 ++ [k].
Proof.
  induction props as [|[k0 v0] props IH]; cbn [set_prop].
  - rewrite decide_False; [done|]. by intros ?%elem_of_nil.
  - rewrite (eqb_string_decide k k0). case_bool_decide as Hk.
    + subst k0. rewrite decide_True; [done|]. cbn. left.
    + cbn [fmap list_fmap fst]. rewrite IH.
      destruct (decide (k ∈ props.*1)) as [Hin|Hnot].
      * rewrite decide_True; [done|]. cbn. by right.
      * rewrite decide_False; [done|]. cbn.
        intros [?|?]%elem_of_cons; congruence.
Qed.

Lemma keys_assign_props source : forall target,
  (forall k, k ∈ (assign_props target source).*1 <-> k ∈ target.*1 \/ k ∈ source.*1)
  /\ exists more, (assign_props target source).*1 = target.*1 ++ more.
Proof.
  unfold assign_props.
  induction source as [|[k v] source IH]; intros target; cbn [fold_left].
  - split; [|by exists []; rewrite app_nil_r].
    intros k0. cbn. rewrite elem_of_nil. tauto.
  - destruct (IH (set_prop k v target)) as [Hin [more Hmore]]. cbn [fst snd].
    split.
    + intros k0. rewrite Hin, keys_set_prop. cbn.
      rewrite elem_of_cons. case_decide; [|rewrite elem_of_app, list_elem_of_singleton];
        naive_solver.
    + rewrite Hmore, keys_set_prop. case_decide; [by exists more|].
      exists (k :: more). by rewrite <- app_assoc.
Qed.

Lemma lookup_assign_props k source : forall target,
  NoDup source.*1 ->
  lookup_prop k (assign_props target source)
  = if decide (k ∈ source.*1) then lookup_prop k source else lookup_prop k target.
Proof.
  unfold assign_props.
  induction source as [|[k0 v0] source IH]; intros target Hdistinct; cbn [fold_left].
  - rewrite decide_False; [done|]. by intros ?%elem_of_nil.
  - cbn in Hdistinct. apply NoDup_cons in Hdistinct as [Hfresh Hdistinct].
    rewrite IH by done. cbn [fst snd lookup_prop].
    rewrite lookup_set_prop, (eqb_string_decide k k0).
    destruct (decide (k ∈ source.*1)) as [Hin|Hnot].
    + rewrite decide_True by (cbn; by right).
      rewrite bool_decide_eq_false_2; [done|]. congruence.
    + case_decide as Hk.
      * subst k0. rewrite decide_True by (cbn; left).
        by rewrite bool_decide_eq_true_2.
      * rewrite decide_False; [done|].
        cbn. intros [?|?]%elem_of_cons; congruence.
Qed.

Lemma undefined_or_not (v : Js.value) : {v = VUndefined} + {v <> VUndefined}.
Proof. destruct v; (by left) || (by right). Qed.

(** The two branches of [sendViewEvent] on options that are given. *)
Lemma sendViewEvent_defined type options :
  options <> VUndefined ->
  sendViewEvent type options
  = match Object_entries options with
    | None => None
    | Some entries =>
        let eventPayload :=
          assign_props [("__Type", VString "GFViewEventProxy"); ("type", type)]
                       (rest_without_args entries) in
        if undefined_or_not (get_prop options "args")
        then Some (VObject eventPayload, [])
        else
          match createViewEventArguments (get_prop options "args") with
          | None => None
          | Some (arguments, out) =>
              Some (VObject (set_prop "arguments" (VArray arguments) eventPayload), out)
          end
    end.
Proof.
  intros Hdef. unfold sendViewEvent.
  destruct options; try done;
    destruct (Object_entries _); try done;
    destruct (undefined_or_not _) as [Hu|Hu];
    destruct (get_prop _ "args"); try done.
Qed.

Lemma createViewEventArguments_None args :
  createViewEventArguments args = None <-> nullish args = true.
Proof. unfold createViewEventArguments. destruct args; cbn; split; congruence. Qed.

Lemma rest_without_args_keys entries :
  "args" ∉ (rest_without_args entries).*1.
Proof.
  unfold rest_without_args. intros [[k v] [Hk Hin]]%list_elem_of_fmap.
  apply list_elem_of_filter in Hin as [Hne _]. cbn in *. congruence.
Qed.

(** The payload in the model's terms: the property list starts with
    [__Type] and [type], the two the object literal begins with. *)
Lemma sendViewEvent_payload_shape (type options payload : Js.value) (out : console) :
  sendViewEvent type options = Some (payload, out) ->
  exists props more,
    payload = VObject props
    /\ (fst <$> props) = ["__Type"; "type"] ++ more
    /\ ("args" ∉ (fst <$> props))
    /\ (options = VUndefined ->
        props = [("__Type", VString "GFViewEventProxy"); ("type", type)])
    /\ (get_prop options "args" <> VUndefined ->
        exists arguments,
          createViewEventArguments (get_prop options "args") = Some (arguments, out)
          /\ lookup_prop "arguments" props = VArray arguments).
Proof.
  intros Hsend.
  destruct (undefined_or_not options) as [->|Hdef].
  { injection Hsend as <- <-.
    exists [("__Type", VString "GFViewEventProxy"); ("type", type)], [].
    repeat split; try done.
    cbn. intros Hin. repeat (apply elem_of_cons in Hin as [Hin|Hin]; [done|]).
    by apply elem_of_nil in Hin. }
  rewrite sendViewEvent_defined in Hsend by done.
  destruct (Object_entries options) as [entries|] eqn:Hentries; [|done].
  set (base := [("__Type", VString "GFViewEventProxy"); ("type", type)]) in *.
  set (eventPayload := assign_props base (rest_without_args entries)) in *.
  destruct (keys_assign_props (rest_without_args entries) base) as [Hkeys [more Hmore]].
  fold eventPayload in Hkeys, Hmore.
  assert (Hnoargs : "args" ∉ eventPayload.*1).
  { rewrite Hkeys. intros [Hin|Hin]; [|by apply rest_without_args_keys in Hin].
    cbn in Hin. repeat (apply elem_of_cons in Hin as [Hin|Hin]; [done|]).
    by apply elem_of_nil in Hin. }
  destruct (undefined_or_not (get_prop options "args")) as [Hargs|Hargs].
  - injection Hsend as <- <-. exists eventPayload, more. by repeat split.
  - destruct (createViewEventArguments (get_prop options "args"))
      as [[arguments o]|] eqn:Hc; [|done].
    injection Hsend as <- <-.
    exists (set_prop "arguments" (VArray arguments) eventPayload).
    rewrite keys_set_prop.
    destruct (decide ("arguments" ∈ eventPayload.*1)).
    + exists more. repeat split; try done.
      intros _. exists arguments. split; [done|].
      rewrite lookup_set_prop. by rewrite decide_True.
    + exists (more ++ ["arguments"]). repeat split; try done.
      * by rewrite Hmore, <- app_assoc.
      * rewrite elem_of_app, list_elem_of_singleton. intros [?|?]; [done|discriminate].
      * intros _. exists arguments. split; [done|].
        rewrite lookup_set_prop. by rewrite decide_True.
Qed.

(** X5.  The payload [sendViewEvent] hands to [viewEnv.handleViewEvent]
    always carries [__Type] and [type], never carries the [args] option,
    and, when [args] was given, carries under [arguments] exactly the list
    [createViewEventArguments(args)] builds; without options it is the
    minimal [{__Type, type}] event. *)
Theorem sendViewEvent_payload (type options payload : Js.value) (out : console) :
  sendViewEvent type options = Some (payload, out) ->
  exists props,
    payload = VObject props
    /\ ("__Type" ∈ (fst <$> props))
    /\ ("type" ∈ (fst <$> props))
    /\ ("args" ∉ (fst <$> props))
    /\ (options = VUndefined ->
        props = [("__Type", VString "GFViewEventProxy"); ("type", type)])
    /\ (get_prop options "args" <> VUndefined ->
        exists arguments,
          createViewEventArguments (get_prop options "args") = Some (arguments, out)
          /\ lookup_prop "arguments" props = VArray arguments).
Proof.
  intros Hsend.
  destruct (sendViewEvent_payload_shape _ _ _ _ Hsend)
    as (props & more & -> & Hkeys & Hnoargs & Hminimal & Harguments).
  exists props. repeat split; try done; rewrite Hkeys.
  - apply elem_of_cons. by left.
  - apply elem_of_cons. right. apply elem_of_cons. by left.
Qed.

(** X6.  [sendViewEvent] throws exactly in two cases: [options] is [null],
    or [options] carries an [args] that is [null]; an [args] left
    [undefined] is fine, as is every other value of [options]. *)
Theorem sendViewEvent_throws_iff (type options : Js.value) :
  sendViewEvent type options = None
  <-> options = VNull \/ get_prop options "args" = VNull.
Proof.
  destruct (undefined_or_not options) as [->|Hdef].
  { cbn. split; [discriminate|intros [?|?]; discriminate]. }
  rewrite sendViewEvent_defined by done.
  destruct (Object_entries options) as [entries|] eqn:Hentries.
  2:{ split; [intros _|done]. left. by destruct options. }
  assert (Hnotnull : options <> VNull) by (by destruct options).
  destruct (undefined_or_not (get_prop options "args")) as [Hargs|Hargs].
  - rewrite Hargs. split; [discriminate|intros [?|?]; congruence].
  - pose proof (createViewEventArguments_None (get_prop options "args")) as Hnone.
    destruct (createViewEventArguments (get_prop options "args")) as [[arguments o]|].
    + split; [discriminate|]. intros [?|Hnull]; [done|].
      rewrite Hnull in Hnone. by destruct Hnone as [_ Hn]; specialize (Hn eq_refl).
    + split; [intros _|done]. right.
      destruct Hnone as [Hn _]. specialize (Hn eq_refl).
      destruct (get_prop options "args"); try done.
Qed.

Lemma lookup_rest_without_args k entries :
  k <> "args" -> lookup_prop k (rest_without_args entries) = lookup_prop k entries.
Proof.
  intros Hk. unfold rest_without_args.
  induction entries as [|[k0 v0] entries IH]; [done|].
  cbn [lookup_prop]. rewrite (eqb_string_decide k k0).
  destruct (decide (k0 = "args")) as [->|Hne].
  - rewrite filter_cons_False by (cbn; tauto).
    by rewrite bool_decide_eq_false_2.
  - rewrite filter_cons_True by done. cbn [lookup_prop].
    by rewrite (eqb_string_decide k k0), IH.
Qed.

Lemma keys_rest_without_args k entries :
  k <> "args" -> k ∈ (rest_without_args entries).*1 <-> k ∈ entries.*1.
Proof.
  intros Hk. unfold rest_without_args. rewrite !list_elem_of_fmap. split.
  - intros ([k0 v0] & -> & [_ Hin]%list_elem_of_filter). by exists (k0, v0).
  - intros ([k0 v0] & -> & Hin). exists (k0, v0). split; [done|].
    by apply list_elem_of_filter.
Qed.

(** An option that was given, that is, anything but [undefined]. *)
Definition given (v : Js.value) : bool :=
  match v with
  | VUndefined => false
  | _ => true
  end.

(** X7.  What the payload holds under every name.  Never [args].  Under
    [arguments], when [args] is given, the list built from [args], which
    replaces an own [arguments] of [options].  Under every other name the
    option of that name as it is, which wins over what [sendViewEvent] sets
    itself: an own [type] or [__Type] of [options] replaces the [type]
    argument and the ["GFViewEventProxy"] marker.  (The properties of the
    options object carry distinct names.) *)
Theorem sendViewEvent_options_pass_through (type : Js.value)
    (props payload : list (string * Js.value)) (out : console) (k : string) :
  NoDup props.*1 ->
  sendViewEvent type (VObject props) = Some (VObject payload, out) ->
  lookup_prop k payload
  = if decide (k = "args") then VUndefined
    else if bool_decide (k = "arguments") && given (lookup_prop "args" props)
    then match createViewEventArguments (lookup_prop "args" props) with
         | Some (arguments, _) => VArray arguments
         | None => VUndefined
         end
    else if decide (k ∈ props.*1) then lookup_prop k props
    else lookup_prop k [("__Type", VString "GFViewEventProxy"); ("type", type)].
Proof.
  intros Hdistinct Hsend.
  rewrite sendViewEvent_defined in Hsend by done.
  cbn [Object_entries get_prop] in Hsend.
  assert (Hrest : NoDup (rest_without_args props).*1).
  { apply (sublist_NoDup _ props.*1); [exact Hdistinct|].
    apply fmap_sublist. unfold rest_without_args. apply sublist_filter. }
  assert (Hbase : forall k0, lookup_prop k0
            (assign_props [("__Type", VString "GFViewEventProxy"); ("type", type)]
                          (rest_without_args props))
          = if decide (k0 = "args") then VUndefined
            else if decide (k0 ∈ props.*1) then lookup_prop k0 props
            else lookup_prop k0 [("__Type", VString "GFViewEventProxy"); ("type", type)]).
  { intros k0. rewrite lookup_assign_props by done.
    destruct (decide (k0 = "args")) as [->|Hk0].
    - by rewrite decide_False by apply rest_without_args_keys.
    - rewrite lookup_rest_without_args by done.
      destruct (decide (k0 ∈ props.*1)) as [Hin|Hnot].
      + rewrite decide_True; [done|]. by apply keys_rest_without_args.
      + rewrite decide_False; [done|]. by rewrite keys_rest_without_args. }
  destruct (undefined_or_not _) as [Hu|Hu].
  - injection Hsend as <- <-. rewrite Hbase, Hu. cbn [given].
    by rewrite andb_false_r.
  - destruct (createViewEventArguments _) as [[arguments o]|]; [|done].
    injection Hsend as <- <-. rewrite lookup_set_prop.
    assert (Hgiven : given (lookup_prop "args" props) = true)
      by (by destruct (lookup_prop "args" props)).
    rewrite Hgiven, andb_true_r.
    destruct (decide (k = "arguments")) as [->|Hne].
    + by rewrite decide_False, bool_decide_eq_true_2.
    + by rewrite Hbase, bool_decide_eq_false_2.
Qed.

Section TooltipPayloads.
Variable SimpleTooltipContent TooltipWindow : Js.value.

(** X8.  [showTooltip] and [hideTooltip] never throw.  [showTooltip] sends
    a tooltip event that is switched on, for the mouse, with the arguments
    [body] then [header]; a [body] or [header] that is not a string, a
    number or a boolean is left out.  [hideTooltip] sends the event
    switched off, without arguments.  Parameters left [undefined] take
    their defaults. *)
Theorem tooltip_payloads (header body contentID decoratorID : Js.value) :
  showTooltip SimpleTooltipContent TooltipWindow header body contentID decoratorID
  = Some
      (VObject
         [("__Type", VString "GFViewEventProxy"); ("type", ViewEventTypes_tooltip);
          ("contentID", or_default SimpleTooltipContent contentID);
          ("decoratorID", or_default TooltipWindow decoratorID);
          ("targetID", VNumber (S754_zero false)); ("isMouseEvent", VBool true);
          ("on", VBool true);
          ("arguments",
           VArray (proxy <$> filter (fun e => supported e.2 = true)
                     [("body", or_default (VString "") body);
                      ("header", or_default (VString "") header)]))],
       warnings_of [("body", or_default (VString "") body);
                    ("header", or_default (VString "") header)])
  /\ hideTooltip SimpleTooltipContent TooltipWindow contentID decoratorID
     = Some
         (VObject
            [("__Type", VString "GFViewEventProxy"); ("type", ViewEventTypes_tooltip);
             ("contentID", or_default SimpleTooltipContent contentID);
             ("decoratorID", or_default TooltipWindow decoratorID);
             ("targetID", VNumber (S754_zero false)); ("on", VBool false)],
          []).
Proof.
  split; [|reflexivity].
  unfold showTooltip. rewrite sendViewEvent_defined by done.
  cbn [Object_entries get_prop lookup_prop String.eqb Ascii.eqb Bool.eqb].
  destruct (undefined_or_not _) as [Hu|_]; [discriminate Hu|].
  unfold createViewEventArguments. cbn [Object_entries].
  rewrite createViewEventArguments_loop. reflexivity.
Qed.

End TooltipPayloads.

Lemma sendViewEvent_payload_witness :
  exists props,
    VObject [("__Type", VString "GFViewEventProxy");
             ("type", ViewEventTypes_tooltip); ("on", VBool true);
             ("arguments", VArray [proxy ("body", VString "text")])]
    = VObject props
    /\ ("__Type" ∈ (fst <$> props))
    /\ ("type" ∈ (fst <$> props))
    /\ ("args" ∉ (fst <$> props))
    /\ (VObject [("on", VBool true); ("args", VObject [("body", VString "text")])]
        = VUndefined ->
        props = [("__Type", VString "GFViewEventProxy");
                 ("type", ViewEventTypes_tooltip)])
    /\ (get_prop
          (VObject [("on", VBool true); ("args", VObject [("body", VString "text")])])
          "args" <> VUndefined ->
        exists arguments,
          createViewEventArguments
            (get_prop
               (VObject [("on", VBool true);
                         ("args", VObject [("body", VString "text")])]) "args")
          = Some (arguments, [])
          /\ lookup_prop "arguments" props = VArray arguments).
Proof.
  apply (sendViewEvent_payload ViewEventTypes_tooltip
           (VObject [("on", VBool true); ("args", VObject [("body", VString "text")])])).
  reflexivity.
Defined.

Lemma sendViewEvent_options_pass_through_witness :
  lookup_prop "arguments"
    [("__Type", VString "GFViewEventProxy"); ("type", VString "mine");
     ("arguments", VArray [proxy ("body", VString "text")])]
  = VArray [proxy ("body", VString "text")]
  /\ lookup_prop "type"
       [("__Type", VString "GFViewEventProxy"); ("type", VString "mine");
        ("arguments", VArray [proxy ("body", VString "text")])]
     = VString "mine".
Proof.
  assert (Hdistinct : NoDup [("type", VString "mine"); ("arguments", VString "own");
                             ("args", VObject [("body", VString "text")])].*1).
  { repeat constructor; cbn; rewrite ?elem_of_cons, ?elem_of_nil; intuition discriminate. }
  split.
  - apply (sendViewEvent_options_pass_through ViewEventTypes_tooltip
             [("type", VString "mine"); ("arguments", VString "own");
              ("args", VObject [("body", VString "text")])]
             _ [] "arguments" Hdistinct).
    reflexivity.
  - apply (sendViewEvent_options_pass_through ViewEventTypes_tooltip
             [("type", VString "mine"); ("arguments", VString "own");
              ("args", VObject [("body", VString "text")])]
             _ [] "type" Hdistinct).
    reflexivity.
Defined.

End Views.

(** ** gui/gameface/js/index.js: the Gameface resource injector *)

Module Injector.
Import Js.

(** A DOM element created by the script: its tag and the properties the
    script assigned to it, in assignment order. *)
Record element := Element {
  tagName : string;
  properties : list (string * Js.value)
}.

(** [document.createElement(tagName)] *)
Definition createElement (tagName : string) : element := Element tagName [].

(** [el.k = v] *)
Definition assign (k : string) (v : Js.value) (el : element) : element :=
  Element (tagName el) (set_prop k v (properties el)).

(** An entry of the [assetTypes] table. *)
Record assetType := AssetType {
  type : string;
  tag : string;
  defaults : list (string * Js.value)
}.

Definition assetTypes : list assetType :=
  [ AssetType "styles" "link" [("rel", VString "stylesheet")];
    AssetType "scripts" "script" [("type", VString "text/javascript")];
    AssetType "modules" "script" [("type", VString "module")] ].

(** [injectAsset(type, tagName, url, attributes)], on the children of
    [document.body]. *)
Definition injectAsset (type tagName : string) (url : Js.value)
    (attributes : list (string * Js.value)) (body : list element) : list element :=
  let el := createElement tagName in
  let el := assign "crossOrigin" (VString "") el in
  let el :=
    if String.eqb type "styles" then assign "href" url el
    else assign "defer" (VBool true) (assign "src" url el) in
  let el := Element (Injector.tagName el) (assign_props (properties el) attributes) in
  body ++ [el].

(** How a call completes: normally, by the TypeError of calling a [forEach]
    that is not a function, or by whatever a [forEach] that is not the
    engine's threw. *)
Inductive completion := Normal | TypeError | Exception.

(** The callback of the inner [forEach]. *)
Definition inject_one (at_ : assetType) (body : list element) (asset : Js.value)
  : list element :=
  if truthy (get_prop_opt asset "value")
  then injectAsset (type at_) (tag at_) (get_prop asset "value") (defaults at_) body
  else body.

Section Foreign.

(** What a function that is not the engine's does when it is called as
    [target.forEach(callback)]: the values it hands to [callback], in
    order, and how it completes.  Functions are opaque in [Js.value];
    [invoke_forEach name target] describes the function called [name] with
    [target] for [this]. *)
Variable invoke_forEach : string -> Js.value -> list Js.value * completion.

(** [target.forEach(callback)] on a [target] that is not nullish: the
    values handed to [callback] and the completion, or [None] when
    [target.forEach] is not a function.  An array has the engine's
    [forEach]; an object has the one it carries, if it carries a function
    under that name; strings, numbers and the other primitives have none. *)
Definition forEach_of (target : Js.value) : option (list Js.value * completion) :=
  match target with
  | VArray assets => Some (assets, Normal)
  | VObject props =>
      match lookup_prop "forEach" props with
      | VFunction name => Some (invoke_forEach name target)
      | _ => None
      end
  | _ => None
  end.

(** [featureModule[type]?.forEach(...)] for one entry of [assetTypes]. *)
Definition inject_type (featureModule : Js.value) (at_ : assetType)
    (body : list element) : list element * completion :=
  match get_prop featureModule (type at_) with
  | VUndefined | VNull => (body, Normal)
  | assets =>
      match forEach_of assets with
      | None => (body, TypeError)
      | Some (handed, c) => (fold_left (inject_one at_) handed body, c)
      end
  end.

(** [assetTypes.forEach(...)]: an exception leaves the loop. *)
Fixpoint inject_types (featureModule : Js.value) (ats : list assetType)
    (body : list element) : list element * completion :=
  match ats with
  | [] => (body, Normal)
  | at_ :: rest =>
      match inject_type featureModule at_ body with
      | (body', Normal) => inject_types featureModule rest body'
      | thrown => thrown
      end
  end.

Section WithResId.
Context {ResId : Type} `{Countable ResId}.

(** The globals the script works on: the set [injectedResIds], the map
    [window.subViews] and the children of [document.body]. *)
Record state := State {
  injectedResIds : gset ResId;
  subViews : gmap ResId Js.value;
  body : list element
}.

(** [window.subViews.get(resId)?.model?.ModInjectModel] *)
Definition featureModule (st : state) (resId : ResId) : Js.value :=
  get_prop_opt
    (get_prop_opt (default VUndefined (subViews st !! resId)) "model")
    "ModInjectModel".

(** [injectModAssets(resId)] *)
Definition injectModAssets (resId : ResId) (st : state) : state * completion :=
  if decide (resId ∈ injectedResIds st) then (st, Normal)
  else
    let fm := featureModule st resId in
    if negb (truthy fm) then (st, Normal)
    else
      let injected := {[resId]} ∪ injectedResIds st in
      let '(body', c) := inject_types fm assetTypes (body st) in
      (State injected (subViews st) body', c).

(** What may happen between two calls: another call of [injectModAssets],
    or the engine and other scripts changing the sub-views and the
    document. *)
Inductive step : state -> state -> Prop :=
  | step_inject resId st : step st (injectModAssets resId st).1
  | step_environment st views children :
      step st (State (injectedResIds st) views children).

Definition later : state -> state -> Prop := rtc step.

End WithResId.

(** The elements the injector is expected to build. *)
Definition link_element (url : Js.value) : element :=
  Element "link"
    [("crossOrigin", VString ""); ("href", url); ("rel", VString "stylesheet")].

Definition script_element (type : string) (url : Js.value) : element :=
  Element "script"
    [("crossOrigin", VString ""); ("src", url); ("defer", VBool true);
     ("type", VString type)].

(** An optional list: absent ([undefined] or [null]) or an array. *)
Definition optional_list (v : Js.value) : bool :=
  match v with
  | VUndefined | VNull | VArray _ => true
  | _ => false
  end.

(** The URLs carried by the assets of an optional list: the truthy [value]
    properties, in order; an absent list carries none. *)
Definition urls (v : Js.value) : list Js.value :=
  match v with
  | VArray assets =>
      filter (fun u => truthy u = true) ((fun a => get_prop_opt a "value") <$> assets)
  | _ => []
  end.

Lemma get_prop_truthy a k :
  truthy (get_prop_opt a k) = true -> get_prop a k = get_prop_opt a k.
Proof. unfold get_prop_opt. destruct (nullish a); simpl; [discriminate|done]. Qed.

Lemma fold_inject_one at_ (mk : Js.value -> element) :
  (forall u b, injectAsset (type at_) (tag at_) u (defaults at_) b = b ++ [mk u]) ->
  forall assets b,
    fold_left (inject_one at_) assets b = b ++ (mk <$> urls (VArray assets)).
Proof.
  intros Hmk assets. induction assets as [|a assets IH]; intros b.
  - simpl. by rewrite app_nil_r.
  - cbn [fold_left]. rewrite IH. unfold inject_one, urls.
    rewrite (fmap_cons _ a assets).
    destruct (truthy (get_prop_opt a "value")) eqn:Ht.
    + rewrite filter_cons_True by done.
      rewrite Hmk, (get_prop_truthy _ _ Ht), fmap_cons.
      by rewrite <- app_assoc.
    + rewrite filter_cons_False by congruence. done.
Qed.

Lemma inject_type_optional fm at_ (mk : Js.value -> element) b :
  (forall u b, injectAsset (type at_) (tag at_) u (defaults at_) b = b ++ [mk u]) ->
  optional_list (get_prop fm (type at_)) = true ->
  inject_type fm at_ b = (b ++ (mk <$> urls (get_prop fm (type at_))), Normal).
Proof.
  intros Hmk Hopt. unfold inject_type.
  destruct (get_prop fm (type at_)) eqn:Hp; simpl in Hopt; try discriminate Hopt;
    simpl urls; rewrite ?fmap_nil, ?app_nil_r; try done.
  cbn [forEach_of]. by rewrite (fold_inject_one at_ mk Hmk).
Qed.

Section WithResId.
Context {ResId : Type} `{Countable ResId}.
Implicit Types (resId : ResId) (st : state (ResId := ResId)).

Lemma injectModAssets_recorded resId st :
  resId ∈ injectedResIds st -> injectModAssets resId st = (st, Normal).
Proof. intros Hin. unfold injectModAssets. by rewrite decide_True. Qed.

Lemma injectModAssets_no_model resId st :
  truthy (featureModule st resId) = false -> injectModAssets resId st = (st, Normal).
Proof.
  intros Hf. unfold injectModAssets. case_decide; [done|]. by rewrite Hf.
Qed.

Lemma injectModAssets_records resId st :
  truthy (featureModule st resId) = true ->
  resId ∈ injectedResIds (injectModAssets resId st).1.
Proof.
  intros Ht. unfold injectModAssets. case_decide; [done|]. rewrite Ht.
  cbn [negb]. destruct (inject_types _ _ _). simpl. set_solver.
Qed.

Lemma step_injectedResIds st st' :
  step st st' -> injectedResIds st ⊆ injectedResIds st'.
Proof.
  destruct 1 as [r st|st views children]; [|done].
  unfold injectModAssets. case_decide; [done|].
  destruct (negb _); [done|]. destruct (inject_types _ _ _). simpl. set_solver.
Qed.

Lemma later_injectedResIds st st' :
  later st st' -> injectedResIds st ⊆ injectedResIds st'.
Proof.
  induction 1 as [|st st1 st2 Hstep _ IH]; [done|].
  etrans; [by apply step_injectedResIds|done].
Qed.

(** C7.  The injector reads exactly three optional lists of the model:
    every asset of [styles] that carries a value URL becomes a [link]
    element with [rel = "stylesheet"] and [href] the URL, every one of
    [scripts] a [script] element of type [text/javascript], every one of
    [modules] a [script] element of type [module]; the elements are appended
    to the document body, one per such asset, and an absent list adds none. *)
Theorem injectModAssets_appends_assets resId st :
  resId ∉ injectedResIds st ->
  truthy (featureModule st resId) = true ->
  optional_list (get_prop (featureModule st resId) "styles") = true ->
  optional_list (get_prop (featureModule st resId) "scripts") = true ->
  optional_list (get_prop (featureModule st resId) "modules") = true ->
  assetTypes =
    [ AssetType "styles" "link" [("rel", VString "stylesheet")];
      AssetType "scripts" "script" [("type", VString "text/javascript")];
      AssetType "modules" "script" [("type", VString "module")] ]
  /\ injectModAssets resId st =
     (State ({[resId]} ∪ injectedResIds st) (subViews st)
        (body st
           ++ (link_element <$> urls (get_prop (featureModule st resId) "styles"))
           ++ (script_element "text/javascript"
                 <$> urls (get_prop (featureModule st resId) "scripts"))
           ++ (script_element "module"
                 <$> urls (get_prop (featureModule st resId) "modules"))),
      Normal)
  /\ urls VUndefined = [] /\ urls VNull = [].
Proof.
  intros Hnew Ht Hstyles Hscripts Hmodules.
  split; [reflexivity|]. split; [|done].
  unfold injectModAssets. rewrite decide_False by done. rewrite Ht.
  cbn [negb assetTypes inject_types].
  rewrite (inject_type_optional _ (AssetType "styles" _ _) link_element)
    by (done || reflexivity).
  rewrite (inject_type_optional _ (AssetType "scripts" _ _)
             (script_element "text/javascript")) by (done || reflexivity).
  rewrite (inject_type_optional _ (AssetType "modules" _ _)
             (script_element "module")) by (done || reflexivity).
  cbn [type]. by rewrite <- !app_assoc.
Qed.

(** A sub-view whose model carries a [ModInjectModel] with one style. *)
Definition view_with_style (url : Js.value) : Js.value :=
  VObject [("model",
    VObject [("ModInjectModel",
      VObject [("styles", VArray [VObject [("value", url)]])])])].

(** C8.  Once [injectModAssets(resId)] has found a [ModInjectModel] on the
    sub-view, [resId] is in [injectedResIds] and every later call with the
    same [resId] changes nothing, whatever happened in between; a [resId]
    whose sub-view has no [ModInjectModel] is not recorded, and a later call
    injects once the model is there. *)
Theorem injectModAssets_once_per_subView resId st :
  (truthy (featureModule st resId) = true ->
   resId ∈ injectedResIds (injectModAssets resId st).1
   /\ forall st', later (injectModAssets resId st).1 st' ->
       injectModAssets resId st' = (st', Normal))
  /\ (truthy (featureModule st resId) = false ->
      resId ∉ injectedResIds st ->
      injectModAssets resId st = (st, Normal)
      /\ forall url children, truthy url = true ->
         body (injectModAssets resId
                 (State (injectedResIds st)
                        (<[resId := view_with_style url]> (subViews st))
                        children)).1
         = children ++ [link_element url]).
Proof.
  split.
  - intros Ht. pose proof (injectModAssets_records resId st Ht) as Hrec.
    split; [done|]. intros st' Hlater.
    apply injectModAssets_recorded.
    by apply (later_injectedResIds _ _ Hlater).
  - intros Hf Hnew. split; [by apply injectModAssets_no_model|].
    intros url children Hurl.
    unfold injectModAssets. cbn [injectedResIds].
    rewrite decide_False by done.
    unfold featureModule. cbn [subViews]. rewrite lookup_insert_eq.
    cbn. unfold inject_one. cbn. rewrite Hurl. reflexivity.
Qed.

End WithResId.

(** *** Further properties of the injector *)





Section Batches.
Context {ResId : Type} `{Countable ResId}.
Implicit Types (resId : ResId) (st : state (ResId := ResId)).

(** [resIds.forEach(injectModAssets)], as the [subViews.onAdded] handler and
    the start-up hook call it: an exception leaves the loop. *)
Fixpoint injectAll (resIds : list ResId) (st : state) : state * completion :=
  match resIds with
  | [] => (st, Normal)
  | resId :: rest =>
      match injectModAssets resId st with
      | (st', Normal) => injectAll rest st'
      | thrown => thrown
      end
  end.


Lemma injectModAssets_injectedResIds resId st :
  injectedResIds st ⊆ injectedResIds (injectModAssets resId st).1
  /\ injectedResIds (injectModAssets resId st).1 ⊆ {[resId]} ∪ injectedResIds st.
Proof.
  unfold injectModAssets. case_decide; [set_solver|].
  destruct (negb _); [set_solver|]. destruct (inject_types _ _ _). cbn. set_solver.
Qed.


(** [target?.forEach(callback)] returns: [target] is absent, or its
    [forEach] is a function whose call completes normally. *)
Definition forEach_returns (target : Js.value) : bool :=
  match target with
  | VUndefined | VNull => true
  | _ =>
      match forEach_of target with
      | Some (_, Normal) => true
      | _ => false
      end
  end.

(** [target] is there and [target.forEach] is not a function. *)
Definition forEach_missing (target : Js.value) : bool :=
  match target with
  | VUndefined | VNull => false
  | _ =>
      match forEach_of target with
      | None => true
      | Some _ => false
      end
  end.

Lemma optional_list_forEach_returns target :
  optional_list target = true -> forEach_returns target = true.
Proof. by destruct target. Qed.

Lemma inject_type_Normal fm at_ b :
  (inject_type fm at_ b).2 = Normal <-> forEach_returns (get_prop fm (type at_)) = true.
Proof.
  unfold inject_type, forEach_returns.
  destruct (get_prop fm (type at_)); try done;
    destruct (forEach_of _) as [[handed []]|]; cbn; split; congruence.
Qed.

Lemma inject_type_forEach_missing fm at_ b :
  forEach_missing (get_prop fm (type at_)) = true ->
  inject_type fm at_ b = (b, TypeError).
Proof.
  unfold inject_type, forEach_missing.
  destruct (get_prop fm (type at_)); try done;
    destruct (forEach_of _) as [[handed c]|]; cbn; congruence.
Qed.

Lemma inject_types_Normal fm b :
  (inject_types fm assetTypes b).2 = Normal
  <-> forEach_returns (get_prop fm "styles") = true
      /\ forEach_returns (get_prop fm "scripts") = true
      /\ forEach_returns (get_prop fm "modules") = true.
Proof.
  cbn [assetTypes inject_types].
  pose proof (inject_type_Normal fm (AssetType "styles" "link" [("rel", VString "stylesheet")]) b)
    as H1.
  destruct (inject_type fm (AssetType "styles" _ _) b) as [b1 c1]. cbn [snd type] in H1.
  destruct c1; [|cbn; split; [intros [=]|intros (Hs & _); by apply H1 in Hs]..].
  pose proof (inject_type_Normal fm
                (AssetType "scripts" "script" [("type", VString "text/javascript")]) b1) as H2.
  destruct (inject_type fm (AssetType "scripts" _ _) b1) as [b2 c2]. cbn [snd type] in H2.
  destruct c2; [|cbn; split; [intros [=]|intros (_ & Hs & _); by apply H2 in Hs]..].
  pose proof (inject_type_Normal fm
                (AssetType "modules" "script" [("type", VString "module")]) b2) as H3.
  destruct (inject_type fm (AssetType "modules" _ _) b2) as [b3 c3]. cbn [snd type] in H3.
  destruct c3; cbn; split; try done.
  - intros _. split; [by apply H1|]. split; [by apply H2|by apply H3].
  - intros (_ & _ & Hs). by apply H3 in Hs.
  - intros (_ & _ & Hs). by apply H3 in Hs.
Qed.

(** X2.  On a sub-view that was not injected yet and has a [ModInjectModel],
    the call completes normally exactly when each of [styles], [scripts]
    and [modules] is absent or has a [forEach] whose call returns: an
    array, or an object that carries a function under that name which
    returns.  A list that is there and has no callable [forEach] (a string,
    a number, a plain object) throws a TypeError.  Either way [resId] is
    recorded, so the call is never retried: when it is [styles] that has no
    callable [forEach], nothing at all is appended, and the [scripts] and
    [modules] of that sub-view are never injected. *)
Theorem injectModAssets_throws_iff resId st :
  resId ∉ injectedResIds st ->
  truthy (featureModule st resId) = true ->
  ((injectModAssets resId st).2 = Normal
   <-> forEach_returns (get_prop (featureModule st resId) "styles") = true
       /\ forEach_returns (get_prop (featureModule st resId) "scripts") = true
       /\ forEach_returns (get_prop (featureModule st resId) "modules") = true)
  /\ injectModAssets resId (injectModAssets resId st).1
     = ((injectModAssets resId st).1, Normal)
  /\ (forEach_missing (get_prop (featureModule st resId) "styles") = true ->
      injectModAssets resId st
      = (State ({[resId]} ∪ injectedResIds st) (subViews st) (body st), TypeError))
  /\ (forall target, optional_list target = true -> forEach_returns target = true)
  /\ (forall target,
        forEach_missing target = true
        <-> match target with
            | VUndefined | VNull | VArray _ => False
            | VObject props =>
                match lookup_prop "forEach" props with
                | VFunction _ => False
                | _ => True
                end
            | _ => True
            end).
Proof.
  intros Hnew Ht. split; [|split; [|split; [|split]]].
  - unfold injectModAssets. rewrite decide_False by done. rewrite Ht. cbn [negb].
    rewrite <- (inject_types_Normal (featureModule st resId) (body st)).
    by destruct (inject_types _ _ _).
  - apply injectModAssets_recorded. by apply injectModAssets_records.
  - intros Hstyles. unfold injectModAssets. rewrite decide_False by done.
    rewrite Ht. cbn [negb assetTypes inject_types].
    by rewrite (inject_type_forEach_missing _ (AssetType "styles" _ _)).
  - apply optional_list_forEach_returns.
  - intros target. unfold forEach_missing, forEach_of.
    destruct target as [| | | | | | | | |props]; try done.
    destruct (lookup_prop "forEach" props); done.
Qed.








Lemma injectAll_app l1 : forall l2 st,
  injectAll (l1 ++ l2) st
  = match injectAll l1 st with
    | (st', Normal) => injectAll l2 st'
    | thrown => thrown
    end.
Proof.
  induction l1 as [|r l1 IH]; intros l2 st; [done|].
  cbn [app injectAll]. destruct (injectModAssets r st) as [st' c]. destruct c; [apply IH|done..].
Qed.

Lemma injectAll_injectedResIds resIds : forall st,
  injectedResIds (injectAll resIds st).1 ⊆ injectedResIds st ∪ list_to_set resIds.
Proof.
  induction resIds as [|r rest IH]; intros st; cbn [injectAll]; [set_solver|].
  pose proof (proj2 (injectModAssets_injectedResIds r st)) as Hr.
  destruct (injectModAssets r st) as [st' c]. cbn [fst] in Hr.
  destruct c; [|cbn; set_solver..].
  specialize (IH st'). set_solver.
Qed.

(** X4.  An exception ends the batch: when the call for [resId] throws, a
    TypeError or anything else, the batch stops in the state that call
    left, and the sub-views listed after it are neither looked at nor
    recorded. *)
Theorem injectAll_stops_at_throw (before after : list ResId) resId st :
  (injectAll before st).2 = Normal ->
  (injectModAssets resId (injectAll before st).1).2 <> Normal ->
  injectAll (before ++ resId :: after) st
  = injectModAssets resId (injectAll before st).1
  /\ forall resId', resId' ∉ injectedResIds st -> resId' ∉ before -> resId' <> resId ->
       resId' ∉ injectedResIds (injectAll (before ++ resId :: after) st).1.
Proof.
  intros Hbefore Hthrow.
  assert (Hrun : injectAll (before ++ resId :: after) st
                 = injectModAssets resId (injectAll before st).1).
  { rewrite injectAll_app. destruct (injectAll before st) as [st1 c1]. cbn in *.
    subst c1. destruct (injectModAssets resId st1) as [st2 c2]. cbn in *.
    by destruct c2. }
  split; [done|]. intros resId' Hnew Hnot Hne. rewrite Hrun.
  pose proof (proj2 (injectModAssets_injectedResIds resId (injectAll before st).1)) as H1.
  pose proof (injectAll_injectedResIds before st) as H2.
  intros Hin. apply H1 in Hin. set_solver.
Qed.

End Batches.

End Foreign.

(** A [forEach] of a mod's own that hands its callback nothing and
    returns. *)
Definition quiet_forEach (name : string) (target : Js.value)
  : list Js.value * completion := ([], Normal).

(** A sub-view as [gf_mod_inject] builds it. *)
Definition example_view : Js.value :=
  VObject [("model",
    VObject [("ModInjectModel",
      VObject [("name", VString "MyModAlias");
               ("styles", VArray [VObject [("value", VString "coui://gui/gameface/mods/MyMod/style.css")]]);
               ("modules", VArray [VObject [("value", VString "coui://gui/gameface/mods/MyMod/script.js")];
                                   VObject [("value", VString "")]])])])].

Definition example_state : state (ResId := Z) :=
  State ∅ {[ 7%Z := example_view ]} [].

(** A [styles] that is not an array: the call throws, after [resId] was
    recorded and before [scripts] and [modules] are looked at. *)
Example injectModAssets_not_a_list :
  injectModAssets quiet_forEach 7%Z
    (State ∅
       {[ 7%Z := VObject [("model", VObject [("ModInjectModel",
                   VObject [("styles", VString "a.css");
                            ("scripts", VArray [VObject [("value", VString "a.js")]])])])] ]}
       [])
  = (State {[ 7%Z ]}
       {[ 7%Z := VObject [("model", VObject [("ModInjectModel",
                   VObject [("styles", VString "a.css");
                            ("scripts", VArray [VObject [("value", VString "a.js")]])])])] ]}
       [],
     TypeError).
Proof. vm_compute. reflexivity. Qed.

(** A [styles] that is an object with a [forEach] of its own: the call
    returns and goes on to the scripts. *)
Example injectModAssets_own_forEach :
  injectModAssets quiet_forEach 7%Z
    (State ∅
       {[ 7%Z := VObject [("model", VObject [("ModInjectModel",
                   VObject [("styles", VObject [("forEach", VFunction "each")]);
                            ("scripts", VArray [VObject [("value", VString "a.js")]])])])] ]}
       [])
  = (State {[ 7%Z ]}
       {[ 7%Z := VObject [("model", VObject [("ModInjectModel",
                   VObject [("styles", VObject [("forEach", VFunction "each")]);
                            ("scripts", VArray [VObject [("value", VString "a.js")]])])])] ]}
       [script_element "text/javascript" (VString "a.js")],
     Normal).
Proof. vm_compute. reflexivity. Qed.

Lemma injectModAssets_appends_assets_witness :
  body (injectModAssets quiet_forEach 7%Z example_state).1 =
  [ link_element (VString "coui://gui/gameface/mods/MyMod/style.css");
    script_element "module" (VString "coui://gui/gameface/mods/MyMod/script.js") ].
Proof.
  pose proof (injectModAssets_appends_assets quiet_forEach 7%Z example_state) as Hw.
  destruct Hw as (_ & -> & _); [apply not_elem_of_empty|reflexivity..|].
  reflexivity.
Defined.

Lemma injectModAssets_once_per_subView_witness :
  (injectModAssets quiet_forEach 7%Z
     (State (injectedResIds (injectModAssets quiet_forEach 7%Z example_state).1) ∅ [])).1
  = State (injectedResIds (injectModAssets quiet_forEach 7%Z example_state).1) ∅ []
  /\ body (injectModAssets quiet_forEach 8%Z
             (State ∅ (<[8%Z := view_with_style (VString "a.css")]> {[ 7%Z := example_view ]})
                    [])).1
     = [link_element (VString "a.css")].
Proof.
  destruct (injectModAssets_once_per_subView quiet_forEach 7%Z example_state) as [Hyes _].
  destruct (injectModAssets_once_per_subView quiet_forEach 8%Z example_state) as [_ Hno].
  split.
  - destruct (Hyes eq_refl) as [_ Hlater].
    rewrite (Hlater (State (injectedResIds
                              (injectModAssets quiet_forEach 7%Z example_state).1) ∅ [])).
    + reflexivity.
    + eapply rtc_l; [apply step_environment|apply rtc_refl].
  - destruct (Hno eq_refl) as [_ Hinj]; [apply not_elem_of_empty|].
    apply (Hinj (VString "a.css") [] eq_refl).
Defined.

(** A model whose [styles] is a string, beside a well-formed one and one
    whose [styles] brings its own [forEach]. *)
Definition broken_view : Js.value :=
  VObject [("model", VObject [("ModInjectModel",
    VObject [("styles", VString "a.css");
             ("scripts", VArray [VObject [("value", VString "a.js")]])])])].

Definition own_forEach_view : Js.value :=
  VObject [("model", VObject [("ModInjectModel",
    VObject [("styles", VObject [("forEach", VFunction "each")]);
             ("scripts", VArray [VObject [("value", VString "a.js")]])])])].

Definition batch_state : state (ResId := Z) :=
  State ∅ {[ 7%Z := example_view; 8%Z := broken_view; 9%Z := example_view;
             10%Z := own_forEach_view ]} [].

Lemma injectModAssets_throws_iff_witness :
  injectModAssets quiet_forEach 8%Z batch_state
  = (State {[ 8%Z ]} (subViews batch_state) [], TypeError)
  /\ (injectModAssets quiet_forEach 10%Z batch_state).2 = Normal.
Proof.
  destruct (injectModAssets_throws_iff quiet_forEach 8%Z batch_state)
    as (_ & _ & Hthrow & _); [apply not_elem_of_empty|reflexivity|].
  destruct (injectModAssets_throws_iff quiet_forEach 10%Z batch_state)
    as (Hreturns & _); [apply not_elem_of_empty|reflexivity|].
  split.
  - rewrite Hthrow by reflexivity. vm_compute. reflexivity.
  - apply Hreturns. repeat split; reflexivity.
Defined.


Lemma injectAll_stops_at_throw_witness :
  9%Z ∉ injectedResIds (injectAll quiet_forEach ([7%Z] ++ 8%Z :: [9%Z]) batch_state).1.
Proof.
  destruct (injectAll_stops_at_throw quiet_forEach [7%Z] [9%Z] 8%Z batch_state)
    as [_ Hrest]; [reflexivity|discriminate|].
  apply Hrest; [apply not_elem_of_empty| |discriminate].
  intros Hin. apply list_elem_of_singleton in Hin. discriminate.
Defined.

End Injector.

(** ** mods/libs/debug.js: [debugObject] and [buildDebugTree] *)

Module Debug.

(** The numbers of JavaScript, which are the IEEE 754 doubles.  [Int z] is
    the double whose value is the integer [z]; [Frac n k], for an odd [n],
    is the double [n / 2^k], which is not an integer (2.5 is [Frac 5 1]);
    the three doubles that are not finite are kept apart.  The two zeros
    are one: nothing below tells them apart. *)
Inductive number :=
  | Int (z : Z)
  | Frac (n : Z) (k : positive)
  | Infinity
  | NegInfinity
  | NaN.

Definition two53 : Z := 9007199254740992.

(** [a > b], on the exact values. *)
Definition gt (a b : number) : bool :=
  match a, b with
  | NaN, _ | _, NaN => false
  | Int x, Int y => (y <? x)%Z
  | Int x, Frac n k => (n <? x * 2 ^ Zpos k)%Z
  | Frac n k, Int y => (y * 2 ^ Zpos k <? n)%Z
  | Frac n k, Frac n' k' => (n' * 2 ^ Zpos k <? n * 2 ^ Zpos k')%Z
  | Infinity, Infinity => false
  | Infinity, _ => true
  | NegInfinity, _ => false
  | _, Infinity => false
  | _, NegInfinity => true
  end.

(** [a < b] *)
Definition lt (a b : number) : bool := gt b a.

(** A mantissa as an odd number times a power of two. *)
Fixpoint odd_part (m : positive) : positive * Z :=
  match m with
  | xO p => let '(o, t) := odd_part p in (o, Z.succ t)
  | _ => (m, 0%Z)
  end.

(** Between [number] and the doubles of the Standard Library ([prec = 53],
    [emax = 1024]), whose operations round as IEEE 754 says. *)
Definition of_float (x : spec_float) : number :=
  match x with
  | S754_zero _ => Int 0
  | S754_infinity false => Infinity
  | S754_infinity true => NegInfinity
  | S754_nan => NaN
  | S754_finite s m e =>
      let '(o, t) := odd_part m in
      let v := if s then Zneg o else Zpos o in
      if (0 <=? e + t)%Z then Int (v * 2 ^ (e + t)) else Frac v (Z.to_pos (- (e + t)))
  end.

Definition to_float (a : number) : spec_float :=
  match a with
  | Int z => binary_normalize 53 1024 z 0 false
  | Frac n k => binary_normalize 53 1024 n (Zneg k) false
  | Infinity => S754_infinity false
  | NegInfinity => S754_infinity true
  | NaN => S754_nan
  end.

(** The double nearest to the integer [z], ties to even; an integer within
    [-2^53, 2^53] is a double itself, and rounding beyond the largest
    finite double gives an infinity. *)
Definition round_to_double (z : Z) : number :=
  let a := Z.abs z in
  if (a <=? two53)%Z then Int z
  else
    let e := (Z.log2 a - 52)%Z in
    let q := Z.shiftr a e in
    let r := (a - Z.shiftl q e)%Z in
    let half := Z.shiftl 1 (e - 1) in
    let q' := if (half <? r)%Z || ((r =? half)%Z && Z.odd q) then (q + 1)%Z else q in
    let v := Z.shiftl q' e in
    if (2 ^ 1024 <=? v)%Z then (if (z <? 0)%Z then NegInfinity else Infinity)
    else Int (Z.sgn z * v).

(** [a + b]: the exact sum, rounded to the nearest double. *)
Definition add (a b : number) : number :=
  match a, b with
  | NaN, _ | _, NaN => NaN
  | Infinity, NegInfinity | NegInfinity, Infinity => NaN
  | Infinity, _ | _, Infinity => Infinity
  | NegInfinity, _ | _, NegInfinity => NegInfinity
  | Int x, Int y => round_to_double (x + y)
  | _, _ => of_float (SFadd 53 1024 (to_float a) (to_float b))
  end.

(** [a + 1] *)
Definition add1 (a : number) : number := add a (Int 1).

(** [a * b].  A product of integers beyond [2^53] in magnitude is rounded by
    the engine; the only use below is the count of [repeat], which throws
    on every such count, rounded or not. *)
Definition mul (a b : number) : number :=
  match a, b with
  | NaN, _ | _, NaN => NaN
  | Int x, Int y => Int (x * y)
  | Int x, Infinity | Infinity, Int x =>
      if (x =? 0)%Z then NaN else if (0 <? x)%Z then Infinity else NegInfinity
  | Int x, NegInfinity | NegInfinity, Int x =>
      if (x =? 0)%Z then NaN else if (0 <? x)%Z then NegInfinity else Infinity
  | Frac n _, Infinity | Infinity, Frac n _ =>
      if (0 <? n)%Z then Infinity else NegInfinity
  | Frac n _, NegInfinity | NegInfinity, Frac n _ =>
      if (0 <? n)%Z then NegInfinity else Infinity
  | Infinity, Infinity | NegInfinity, NegInfinity => Infinity
  | Infinity, NegInfinity | NegInfinity, Infinity => NegInfinity
  | _, _ => of_float (SFmul 53 1024 (to_float a) (to_float b))
  end.

(** ToIntegerOrInfinity on a finite number: the fraction is cut off. *)
Definition integer_part (a : number) : Z :=
  match a with
  | Int z => z
  | Frac n k => Z.quot n (2 ^ Zpos k)
  | _ => 0%Z
  end.

Fixpoint repeat_string (s : string) (n : nat) : string :=
  match n with
  | O => ""
  | S n => s +:+ repeat_string s n
  end.

(** Addresses of objects; a heap gives every address its object, so an
    object graph may share and may be cyclic. *)
Definition loc := nat.

(** A value handed to [debugObject]: a primitive, a function (whose
    [typeof] is not ["object"] either), or a reference to an array or a
    plain object. *)
Inductive value :=
  | VUndefined
  | VNull
  | VBool (b : bool)
  | VNumber (x : spec_float)
  | VString (s : string)
  | VFunction (source : string)
  | VRef (l : loc).

Inductive object :=
  | Array (items : list value)
  | Object (props : list (string * value)).

Definition heap := loc -> object.

(** The options object of [debugObject]; a missing field is [None]. *)
Record options := Options {
  indentSize : option number;
  maxDepth : option number;
  showArrayIndex : option bool
}.

(** How a run ends: it returns, it throws the RangeError of [repeat], or the
    evaluation below ran out of fuel before the call completed. *)
Inductive outcome (A : Type) :=
  | OutOfFuel
  | Threw (out : list string)
  | Returned (a : A).
Arguments OutOfFuel {A}.
Arguments Threw {A} out.
Arguments Returned {A} a.

(** [items.forEach((item, index) => f(item, index))] with the console
    threaded through; anything but a normal return leaves the loop. *)
Fixpoint forEach {A} (f : A -> nat -> list string -> outcome (list string))
    (items : list A) (index : nat) (out : list string) : outcome (list string) :=
  match items with
  | [] => Returned out
  | item :: rest =>
      match f item index out with
      | Returned out' => forEach f rest (S index) out'
      | stopped => stopped
      end
  end.

Section WithBuiltins.

(** [String(x)] on a number and [String.prototype.trim], which the engine
    provides, and the length of the longest string the engine makes. *)
Variable Number_toString : spec_float -> string.
Variable trim : string -> string.
Variable String_maxLength : N.

(** No string has more than [2^53 - 1] characters, whatever the engine. *)
Definition max_length : Z := Z.min (Z.of_N String_maxLength) (two53 - 1).

(** [" ".repeat(count)]: [None] is the RangeError on a count that is
    negative or infinite once its fraction is cut off, and on a result
    longer than a string may be; [NaN] counts as zero. *)
Definition repeat_space (count : number) : option string :=
  match count with
  | NaN => Some ""
  | Infinity | NegInfinity => None
  | finite =>
      let z := integer_part finite in
      if (z <? 0)%Z || (max_length <? z)%Z then None
      else Some (repeat_string " " (Z.to_nat z))
  end.

(** [String(obj)] on the values that are not references. *)
Definition String_of (v : value) : string :=
  match v with
  | VUndefined => "undefined"
  | VNull => "null"
  | VBool true => "true"
  | VBool false => "false"
  | VNumber x => Number_toString x
  | VString s => s
  | VFunction source => source
  | VRef _ => "[object Object]"
  end.

(** The body of [debugObject(obj, options, currentDepth, prefix)], with
    [self] for the function itself in the two recursive calls; [out] is what
    [console.error] has printed so far, one string per call. *)
Definition debugObject_call
    (self : value -> options -> option number -> option string -> list string
            -> outcome (list string))
    (h : heap) (obj : value) (opts : options)
    (currentDepth : option number) (prefix : option string) (out : list string)
  : outcome (list string) :=
  let currentDepth := default (Int 0) currentDepth in
  let prefix := default "" prefix in
  let indentSize := default (Int 2) (indentSize opts) in
  let maxDepth := default (Int 10) (maxDepth opts) in
  let showArrayIndex := default true (showArrayIndex opts) in
  match repeat_space (mul currentDepth indentSize) with
  | None => Threw out
  | Some indent =>
      if gt currentDepth maxDepth
      then Returned (out ++ [indent +:+ prefix +:+ "... [max depth reached]"])
      else
        match obj with
        | VRef l =>
            match h l with
            | Array [] => Returned (out ++ [indent +:+ prefix +:+ "[]"])
            | Array items =>
                match
                  forEach
                    (fun item index out =>
                       let nextPrefix :=
                         if showArrayIndex
                         then pretty (N.of_nat index) +:+ ": " else "" in
                       self item opts (Some (add1 currentDepth)) (Some nextPrefix) out)
                    items 0 (out ++ [indent +:+ prefix +:+ "["])
                with
                | Returned out' => Returned (out' ++ [indent +:+ "]"])
                | stopped => stopped
                end
            | Object [] => Returned (out ++ [indent +:+ prefix +:+ "{}"])
            | Object props =>
                match
                  forEach
                    (fun prop (_ : nat) out =>
                       self prop.2 opts (Some (add1 currentDepth))
                            (Some (prop.1 +:+ ": ")) out)
                    props 0 (out ++ [indent +:+ prefix +:+ "{"])
                with
                | Returned out' => Returned (out' ++ [indent +:+ "}"])
                | stopped => stopped
                end
            end
        | primitive => Returned (out ++ [indent +:+ prefix +:+ String_of primitive])
        end
  end.

(** [debugObject]: each call of the function takes one unit of fuel, so the
    fuel a run needs is its recursion depth. *)
Fixpoint debugObject (fuel : nat) (h : heap) (obj : value) (opts : options)
    (currentDepth : option number) (prefix : option string) (out : list string)
  : outcome (list string) :=
  match fuel with
  | O => OutOfFuel
  | S fuel => debugObject_call (debugObject fuel h) h obj opts currentDepth prefix out
  end.

(** A DOM element as [buildDebugTree] reads it. *)
Record rect := Rect {
  x : spec_float; y : spec_float; width : spec_float; height : spec_float;
  top : spec_float; right : spec_float; bottom : spec_float; left : spec_float
}.

Record element := Element {
  tagName : string;
  attributes : list (string * string);
  style : list (string * string);
  textContent : string;
  children : list (option loc);
  getBoundingClientRect : option rect
}.

(** The elements by address; a falsy element is [None]. *)
Definition document := loc -> element.

(** The node [buildDebugTree] returns. *)
Inductive node := Node {
  tag : string;
  node_attributes : list (string * string);
  styles : list (string * string);
  content : option string;
  depth : number;
  node_children : list node;
  node_bounding_rect : option rect
}.

(** [o[k] = v] on the properties of an object literal. *)
Fixpoint assoc_set (k v : string) (o : list (string * string)) : list (string * string) :=
  match o with
  | [] => [(k, v)]
  | (k', v') :: rest =>
      if String.eqb k k' then (k, v) :: rest else (k', v') :: assoc_set k v rest
  end.

(** [element.style.getPropertyValue(propName)] *)
Fixpoint getPropertyValue (style : list (string * string)) (propName : string) : string :=
  match style with
  | [] => ""
  | (k, v) :: rest => if String.eqb propName k then v else getPropertyValue rest propName
  end.

(** The loop over [element.children]: [None] when a call ran out of fuel. *)
Fixpoint collect_children (f : option loc -> option (option node))
    (children : list (option loc)) (acc : list node) : option (list node) :=
  match children with
  | [] => Some acc
  | child :: rest =>
      match f child with
      | None => None
      | Some None => collect_children f rest acc
      | Some (Some childNode) => collect_children f rest (acc ++ [childNode])
      end
  end.

(** The body of [buildDebugTree(element, depth, maxDepth)], with [self] for
    the recursive call; the outer [None] is a run out of fuel, [Some None]
    the result [null]. *)
Definition buildDebugTree_call
    (self : option loc -> option number -> option number -> option (option node))
    (doc : document) (element : option loc) (depth maxDepth : option number)
  : option (option node) :=
  let depth := default (Int 0) depth in
  let maxDepth := default (Int 5) maxDepth in
  match element with
  | None => Some None
  | Some l =>
      if gt depth maxDepth then Some None
      else
        let el := doc l in
        let attrs :=
          fold_left (fun acc attr => assoc_set attr.1 attr.2 acc) (attributes el) [] in
        let styles :=
          fold_left
            (fun acc prop =>
               assoc_set prop.1 (getPropertyValue (style el) prop.1) acc)
            (style el) [] in
        let shortText :=
          if String.eqb (textContent el) "" then None
          else
            let textContent := trim (textContent el) in
            Some (if (100 <? String.length textContent)%nat
                  then String.substring 0 100 textContent +:+ "..."
                  else textContent) in
        match
          collect_children
            (fun child => self child (Some (add1 depth)) (Some maxDepth))
            (children el) []
        with
        | None => None
        | Some nodes =>
            Some (Some (Node (tagName el) attrs styles shortText depth nodes
                             (getBoundingClientRect el)))
        end
  end.

(** [buildDebugTree]: one unit of fuel per call. *)
Fixpoint buildDebugTree (fuel : nat) (doc : document) (element : option loc)
    (depth maxDepth : option number) : option (option node) :=
  match fuel with
  | O => None
  | S fuel => buildDebugTree_call (buildDebugTree fuel doc) doc element depth maxDepth
  end.

(** A call terminates when some amount of fuel lets it complete. *)
Definition debugObject_terminates (h : heap) (obj : value) (opts : options)
    (currentDepth : option number) (prefix : option string) : Prop :=
  exists fuel, debugObject fuel h obj opts currentDepth prefix [] <> OutOfFuel.

Definition buildDebugTree_terminates (doc : document) (element : option loc)
    (depth maxDepth : option number) : Prop :=
  exists fuel, buildDebugTree fuel doc element depth maxDepth <> None.

(** The fuel that lets a call at depth [d] under the bound [m] complete:
    one call per depth from [d] to [m + 1]. *)
Definition recursion_bound (m d : Z) : nat := S (Z.to_nat (m + 1 - d)).

Lemma round_to_double_exact z : (Z.abs z <= two53)%Z -> round_to_double z = Int z.
Proof.
  intros Hz. unfold round_to_double.
  destruct (Z.abs z <=? two53)%Z eqn:Hle; [done|]. apply Z.leb_gt in Hle. lia.
Qed.

(** Counting up by one is exact from [-2^53] up to [2^53]. *)
Lemma add1_exact d m :
  (- two53 <= d)%Z -> (d <= m)%Z -> (m < two53)%Z -> add1 (Int d) = Int (d + 1).
Proof.
  intros Hlow Hd Hm. unfold add1. cbn [add]. apply round_to_double_exact. lia.
Qed.

(** An integer that exceeds a bound is exceeded by none of the larger ones. *)
Lemma gt_Int_mono (x y : Z) (M : number) :
  gt (Int x) M = true -> (x <= y)%Z -> gt (Int y) M = true.
Proof.
  destruct M as [m|n k| | |]; cbn [gt]; try done.
  - intros Hx%Z.ltb_lt Hy. apply Z.ltb_lt. lia.
  - intros Hx%Z.ltb_lt Hy. apply Z.ltb_lt.
    assert (0 < 2 ^ Z.pos k)%Z by (apply Z.pow_pos_nonneg; lia). nia.
Qed.

Lemma forEach_completes {A} (f : A -> nat -> list string -> outcome (list string)) items :
  (forall item index out, f item index out <> OutOfFuel) ->
  forall index out, forEach f items index out <> OutOfFuel.
Proof.
  intros Hf. induction items as [|item rest IH]; intros index out; cbn [forEach].
  - discriminate.
  - pose proof (Hf item index out) as Hitem.
    destruct (f item index out); [done|discriminate|apply IH].
Qed.

Lemma forEach_stable {A} (f g : A -> nat -> list string -> outcome (list string)) items :
  (forall item index out, f item index out <> OutOfFuel ->
                          g item index out = f item index out) ->
  forall index out, forEach f items index out <> OutOfFuel ->
                    forEach g items index out = forEach f items index out.
Proof.
  intros Hfg. induction items as [|item rest IH]; intros index out; cbn [forEach].
  - done.
  - intros Hrun. pose proof (Hfg item index out) as Hitem.
    destruct (f item index out) as [|thrown|out'].
    + done.
    + by rewrite Hitem.
    + rewrite Hitem by done. by apply IH.
Qed.

Lemma debugObject_S fuel h obj opts currentDepth prefix out :
  debugObject (S fuel) h obj opts currentDepth prefix out
  = debugObject_call (debugObject fuel h) h obj opts currentDepth prefix out.
Proof. reflexivity. Qed.

Lemma debugObject_completes h opts (M : number) m :
  default (Int 10) (maxDepth opts) = M ->
  gt (Int (m + 1)) M = true -> (m < two53)%Z ->
  forall n obj currentDepth d prefix out,
    default (Int 0) currentDepth = Int d ->
    (- two53 <= d)%Z ->
    (m + 1 - d <= Z.of_nat n)%Z ->
    debugObject (S n) h obj opts currentDepth prefix out <> OutOfFuel.
Proof.
  intros Hm Hexceeds Hsafe.
  induction n as [|n IH]; intros obj currentDepth d prefix out Hd Hlow Hn;
    rewrite debugObject_S; unfold debugObject_call; rewrite Hm, Hd;
    (destruct (repeat_space _) as [indent|]; [|discriminate]);
    (destruct (gt (Int d) M) eqn:Hgt; [discriminate|]).
  - rewrite (gt_Int_mono (m + 1) d M) in Hgt by (done || lia). discriminate.
  - assert (Hle : (d <= m)%Z).
    { destruct (decide (d <= m)%Z) as [|Hbeyond]; [done|].
      rewrite (gt_Int_mono (m + 1) d M) in Hgt by (done || lia). discriminate. }
    assert (Hrec : forall item prefix' out',
               debugObject (S n) h item opts (Some (add1 (Int d))) prefix' out'
               <> OutOfFuel).
    { intros item prefix' out'. apply (IH _ _ (d + 1)%Z).
      - cbn [default]. by rewrite (add1_exact d m).
      - lia.
      - lia. }
    destruct obj as [| | | | | |l]; try discriminate.
    destruct (h l) as [[|item items]|[|prop props]]; try discriminate.
    + match goal with
      | |- context [forEach ?f ?xs ?n0 ?o0] =>
          assert (Hloop : forEach f xs n0 o0 <> OutOfFuel)
            by (apply forEach_completes; intros; apply Hrec);
          destruct (forEach f xs n0 o0)
      end; [done|discriminate..].
    + match goal with
      | |- context [forEach ?f ?xs ?n0 ?o0] =>
          assert (Hloop : forEach f xs n0 o0 <> OutOfFuel)
            by (apply forEach_completes; intros; apply Hrec);
          destruct (forEach f xs n0 o0)
      end; [done|discriminate..].
Qed.

Lemma debugObject_call_stable
    (f g : value -> options -> option number -> option string -> list string
           -> outcome (list string)) h obj opts currentDepth prefix out :
  (forall item o d p out', f item o d p out' <> OutOfFuel ->
                           g item o d p out' = f item o d p out') ->
  debugObject_call f h obj opts currentDepth prefix out <> OutOfFuel ->
  debugObject_call g h obj opts currentDepth prefix out
  = debugObject_call f h obj opts currentDepth prefix out.
Proof.
  intros Hfg. unfold debugObject_call.
  destruct (repeat_space _) as [indent|]; [|done].
  destruct (gt _ _); [done|].
  destruct obj as [| | | | | |l]; try done.
  destruct (h l) as [[|item items]|[|prop props]]; try done.
  - intros Hrun.
    match goal with
    | |- match forEach ?g0 ?xs ?n0 ?o0 with _ => _ end
         = match forEach ?f0 ?xs ?n0 ?o0 with _ => _ end =>
        rewrite (forEach_stable f0 g0 xs)
    end; [done|by intros; apply Hfg|].
    intros Hloop. by rewrite Hloop in Hrun.
  - intros Hrun.
    match goal with
    | |- match forEach ?g0 ?xs ?n0 ?o0 with _ => _ end
         = match forEach ?f0 ?xs ?n0 ?o0 with _ => _ end =>
        rewrite (forEach_stable f0 g0 xs)
    end; [done|by intros; apply Hfg|].
    intros Hloop. by rewrite Hloop in Hrun.
Qed.

Lemma debugObject_fuel_S h : forall fuel obj opts currentDepth prefix out,
  debugObject fuel h obj opts currentDepth prefix out <> OutOfFuel ->
  debugObject (S fuel) h obj opts currentDepth prefix out
  = debugObject fuel h obj opts currentDepth prefix out.
Proof.
  induction fuel as [|fuel IH]; intros obj opts currentDepth prefix out Hrun; [done|].
  change (debugObject_call (debugObject (S fuel) h) h obj opts currentDepth prefix out
          = debugObject_call (debugObject fuel h) h obj opts currentDepth prefix out).
  apply debugObject_call_stable; [|exact Hrun].
  intros. by apply IH.
Qed.

Lemma debugObject_fuel_le h obj opts currentDepth prefix out fuel fuel' :
  (fuel <= fuel')%nat ->
  debugObject fuel h obj opts currentDepth prefix out <> OutOfFuel ->
  debugObject fuel' h obj opts currentDepth prefix out
  = debugObject fuel h obj opts currentDepth prefix out.
Proof.
  induction 1 as [|fuel' Hle IH]; [done|]. intros Hrun.
  rewrite debugObject_fuel_S; rewrite IH; done.
Qed.

Lemma collect_children_completes (f : option loc -> option (option node)) children :
  (forall child, f child <> None) ->
  forall acc, collect_children f children acc <> None.
Proof.
  intros Hf. induction children as [|child rest IH]; intros acc; cbn [collect_children].
  - discriminate.
  - pose proof (Hf child) as Hchild.
    destruct (f child) as [[childNode|]|]; [apply IH..|done].
Qed.

Lemma collect_children_stable (f g : option loc -> option (option node)) children :
  (forall child, f child <> None -> g child = f child) ->
  forall acc, collect_children f children acc <> None ->
              collect_children g children acc = collect_children f children acc.
Proof.
  intros Hfg. induction children as [|child rest IH]; intros acc; cbn [collect_children].
  - done.
  - pose proof (Hfg child) as Hchild.
    destruct (f child) as [[childNode|]|]; [| |done];
      (rewrite Hchild by done); apply IH.
Qed.

Lemma buildDebugTree_S fuel doc element depth maxDepth :
  buildDebugTree (S fuel) doc element depth maxDepth
  = buildDebugTree_call (buildDebugTree fuel doc) doc element depth maxDepth.
Proof. reflexivity. Qed.

Lemma buildDebugTree_completes doc (M : number) m :
  gt (Int (m + 1)) M = true -> (m < two53)%Z ->
  forall n element depth maxDepth d,
    default (Int 5) maxDepth = M ->
    default (Int 0) depth = Int d ->
    (- two53 <= d)%Z ->
    (m + 1 - d <= Z.of_nat n)%Z ->
    buildDebugTree (S n) doc element depth maxDepth <> None.
Proof.
  intros Hexceeds Hsafe.
  induction n as [|n IH]; intros element depth maxDepth d Hm Hd Hlow Hn;
    rewrite buildDebugTree_S; unfold buildDebugTree_call; rewrite Hm, Hd;
    (destruct element as [l|]; [|discriminate]);
    (destruct (gt (Int d) M) eqn:Hgt; [discriminate|]).
  - rewrite (gt_Int_mono (m + 1) d M) in Hgt by (done || lia). discriminate.
  - assert (Hle : (d <= m)%Z).
    { destruct (decide (d <= m)%Z) as [|Hbeyond]; [done|].
      rewrite (gt_Int_mono (m + 1) d M) in Hgt by (done || lia). discriminate. }
    match goal with
    | |- context [collect_children ?f ?cs ?acc] =>
        assert (Hloop : collect_children f cs acc <> None);
        [|destruct (collect_children f cs acc); [discriminate|done]]
    end.
    apply collect_children_completes. intros child.
    apply (IH _ _ _ (d + 1)%Z); [done| |lia|lia].
    cbn [default]. by rewrite (add1_exact d m).
Qed.

Lemma buildDebugTree_call_stable
    (f g : option loc -> option number -> option number -> option (option node))
    doc element depth maxDepth :
  (forall child d m, f child d m <> None -> g child d m = f child d m) ->
  buildDebugTree_call f doc element depth maxDepth <> None ->
  buildDebugTree_call g doc element depth maxDepth
  = buildDebugTree_call f doc element depth maxDepth.
Proof.
  intros Hfg. unfold buildDebugTree_call.
  destruct element as [l|]; [|done]. destruct (gt _ _); [done|].
  intros Hrun.
  match goal with
  | |- match collect_children ?g0 ?cs ?acc with _ => _ end
       = match collect_children ?f0 ?cs ?acc with _ => _ end =>
      rewrite (collect_children_stable f0 g0 cs)
  end; [done|by intros; apply Hfg|].
  intros Hloop. by rewrite Hloop in Hrun.
Qed.

Lemma buildDebugTree_fuel_S doc : forall fuel element depth maxDepth,
  buildDebugTree fuel doc element depth maxDepth <> None ->
  buildDebugTree (S fuel) doc element depth maxDepth
  = buildDebugTree fuel doc element depth maxDepth.
Proof.
  induction fuel as [|fuel IH]; intros element depth maxDepth Hrun; [done|].
  rewrite (buildDebugTree_S (S fuel)), (buildDebugTree_S fuel).
  apply buildDebugTree_call_stable; [|exact Hrun].
  intros. by apply IH.
Qed.

Lemma buildDebugTree_fuel_le doc element depth maxDepth fuel fuel' :
  (fuel <= fuel')%nat ->
  buildDebugTree fuel doc element depth maxDepth <> None ->
  buildDebugTree fuel' doc element depth maxDepth
  = buildDebugTree fuel doc element depth maxDepth.
Proof.
  induction 1 as [|fuel' Hle IH]; [done|]. intros Hrun.
  rewrite buildDebugTree_fuel_S; rewrite IH; done.
Qed.

(** C10, for bounds the counter can exceed.  Let the depth counter start at
    an integer [d >= -2^53] (0 by default) and let the bound [maxDepth] be
    any number [M] below [2^53], an integer, a fraction or [-Infinity]: one
    that some integer [m + 1] with [m < 2^53] exceeds.  Then counting up is
    exact, every depth beyond [m] exceeds the bound, and every call of
    [debugObject] and of [buildDebugTree] completes, on every heap and every
    document, cyclic ones included: a recursion depth of [m + 2 - d] calls
    is enough, after which more fuel changes nothing.  [buildDebugTree] is
    not exported; its one caller, [debugElement], starts it at depth 0 with
    the bound 10, where 12 nested calls are enough. *)
Theorem debug_recursion_bounded (m d : Z) (M : number) :
  (- two53 <= d)%Z -> (m < two53)%Z -> gt (Int (m + 1)) M = true ->
  ((d <= m)%Z -> add1 (Int d) = Int (d + 1))
  /\ (forall x, (m < x)%Z -> gt (Int x) M = true)
  /\ (forall h obj opts currentDepth prefix out fuel,
        default (Int 10) (maxDepth opts) = M ->
        default (Int 0) currentDepth = Int d ->
        (recursion_bound m d <= fuel)%nat ->
        debugObject fuel h obj opts currentDepth prefix out <> OutOfFuel
        /\ debugObject fuel h obj opts currentDepth prefix out
           = debugObject (recursion_bound m d) h obj opts currentDepth prefix out)
  /\ (forall doc element depth maxDepth fuel,
        default (Int 5) maxDepth = M ->
        default (Int 0) depth = Int d ->
        (recursion_bound m d <= fuel)%nat ->
        buildDebugTree fuel doc element depth maxDepth <> None
        /\ buildDebugTree fuel doc element depth maxDepth
           = buildDebugTree (recursion_bound m d) doc element depth maxDepth)
  /\ (forall doc element fuel,
        (12 <= fuel)%nat ->
        buildDebugTree fuel doc element (Some (Int 0)) (Some (Int 10)) <> None
        /\ buildDebugTree fuel doc element (Some (Int 0)) (Some (Int 10))
           = buildDebugTree 12 doc element (Some (Int 0)) (Some (Int 10))).
Proof.
  intros Hd Hm Hexceeds. split; [|split; [|split; [|split]]].
  - intros Hle. by apply (add1_exact d m).
  - intros x Hx. apply (gt_Int_mono (m + 1)); [done|lia].
  - intros h obj opts currentDepth prefix out fuel Hmax Hdepth Hfuel.
    assert (Hrun : debugObject (recursion_bound m d) h obj opts currentDepth prefix out
                   <> OutOfFuel).
    { unfold recursion_bound.
      apply (debugObject_completes h opts M m Hmax Hexceeds Hm _ _ _ d); [done|done|lia]. }
    rewrite (debugObject_fuel_le _ _ _ _ _ _ _ _ Hfuel Hrun). done.
  - intros doc element depth maxDepth fuel Hmax Hdepth Hfuel.
    assert (Hrun : buildDebugTree (recursion_bound m d) doc element depth maxDepth
                   <> None).
    { unfold recursion_bound.
      apply (buildDebugTree_completes doc M m Hexceeds Hm _ _ _ _ d); [done..|lia]. }
    rewrite (buildDebugTree_fuel_le _ _ _ _ _ _ Hfuel Hrun). done.
  - intros doc element fuel Hfuel.
    assert (Hrun : buildDebugTree 12 doc element (Some (Int 0)) (Some (Int 10)) <> None).
    { apply (buildDebugTree_completes doc (Int 10) 10 eq_refl eq_refl 11 _ _ _ 0);
        [done|done|unfold two53; lia|lia]. }
    rewrite (buildDebugTree_fuel_le _ _ _ _ _ _ Hfuel Hrun). done.
Qed.

End WithBuiltins.

(** The longest string of V8 on a 64-bit machine, [2^29 - 24] characters. *)
Definition V8_maxLength : N := 536870888.

(** [{a: [true, [], obj], b: "x"}], where [obj] is the object itself. *)
Definition example_heap : heap :=
  fun l =>
    match l with
    | 0 => Object [("a", VRef 1); ("b", VString "x")]
    | 1 => Array [VBool true; VRef 2; VRef 0]
    | _ => Array []
    end.

Example debugObject_maxDepth_1 :
  debugObject (fun _ => "0") V8_maxLength 3 example_heap (VRef 0)
    (Options None (Some (Int 1)) None) None None []
  = Returned
      [ "{";
        "  a: [";
        "    0: ... [max depth reached]";
        "    1: ... [max depth reached]";
        "    2: ... [max depth reached]";
        "  ]";
        "  b: x";
        "}" ].
Proof. vm_compute. reflexivity. Qed.

(** A bound that is a fraction: the depths 0, 1 and 2 are within 2.5. *)
Example debugObject_maxDepth_fraction :
  debugObject (fun _ => "0") V8_maxLength 5 example_heap (VRef 1)
    (Options (Some (Frac 1 1)) (Some (Frac 5 1)) (Some false)) None None []
  = Returned
      [ "[";
        "true";
        "[]";
        "{";
        " a: [";
        " ... [max depth reached]";
        " ... [max depth reached]";
        " ... [max depth reached]";
        " ]";
        " b: x";
        "}";
        "]" ].
Proof. vm_compute. reflexivity. Qed.

Example debugObject_negative_indent :
  debugObject (fun _ => "0") V8_maxLength 3 example_heap (VRef 0)
    (Options (Some (Int (-1))) None None) None None []
  = Threw ["{"].
Proof. vm_compute. reflexivity. Qed.

(** An indentation too wide for a string: [repeat] throws at depth 1. *)
Example debugObject_indent_too_wide :
  debugObject (fun _ => "0") V8_maxLength 3 example_heap (VRef 0)
    (Options (Some (Int 1073741824)) None None) None None []
  = Threw ["{"].
Proof. vm_compute. reflexivity. Qed.

(** An array that contains itself, and an element that is its own child. *)
Definition cyclic_heap : heap := fun _ => Array [VRef 0].

Definition cyclic_document : document :=
  fun _ => Element "DIV" [] [] "" [Some 0] None.

(** With [maxDepth: Infinity] and [indentSize: 0] the call on the array that
    contains itself never completes, from whatever integer or infinite
    depth it starts. *)
Lemma debugObject_unbounded Number_toString String_maxLength :
  forall fuel currentDepth prefix out,
    match default (Int 0) currentDepth with Frac _ _ => False | _ => True end ->
    debugObject Number_toString String_maxLength fuel cyclic_heap (VRef 0)
      (Options (Some (Int 0)) (Some Infinity) None) currentDepth prefix out
    = OutOfFuel.
Proof.
  assert (Hzero : repeat_space String_maxLength (Int 0) = Some "").
  { unfold repeat_space, max_length. cbn [integer_part Z.ltb Z.compare orb].
    destruct (Z.ltb_spec (Z.min (Z.of_N String_maxLength) (two53 - 1)) 0); [|done].
    unfold two53 in *. lia. }
  induction fuel as [|fuel IH]; intros currentDepth prefix out Hdepth; [done|].
  rewrite debugObject_S. unfold debugObject_call.
  cbn [indentSize maxDepth default from_option id cyclic_heap].
  destruct (from_option id (Int 0) currentDepth) as [d|n k| | |] eqn:Hd;
    [|done| | |]; cbn [mul Z.eqb gt].
  - replace (d * 0)%Z with 0%Z by lia. rewrite Hzero. cbn [forEach].
    rewrite IH; [done|]. cbn [default from_option id add1 add].
    unfold round_to_double. by repeat case_match.
  - cbn [repeat_space forEach]. by rewrite IH.
  - cbn [repeat_space forEach]. by rewrite IH.
  - cbn [repeat_space forEach]. by rewrite IH.
Qed.

(** C10 as stated fails: with [maxDepth: Infinity] (and [indentSize: 0], so
    that the indentation never grows) the depth counter never exceeds the
    bound, and on an array that contains itself no number of nested calls
    completes [debugObject], whatever the longest string of the engine: the
    recursion depth is not bounded (an engine ends the run only when its
    call stack is exhausted). *)
Lemma debug_recursion_unbounded_on_cycle :
  ~ (exists Number_toString String_maxLength,
       debugObject_terminates Number_toString String_maxLength cyclic_heap (VRef 0)
         (Options (Some (Int 0)) (Some Infinity) None) None None).
Proof.
  intros (Number_toString & String_maxLength & fuel & Hrun). apply Hrun.
  by apply debugObject_unbounded.
Qed.

Example buildDebugTree_cycle_maxDepth_1 :
  buildDebugTree (fun s => s) 3 cyclic_document (Some 0) None (Some (Int 1))
  = Some (Some (Node "DIV" [] [] None (Int 0)
                  [Node "DIV" [] [] None (Int 1) [] None] None)).
Proof. vm_compute. reflexivity. Qed.

Lemma debug_recursion_bounded_witness :
  debugObject (fun _ => "0") V8_maxLength 4 cyclic_heap (VRef 0)
    (Options None (Some (Frac 5 1)) None) None None [] <> OutOfFuel
  /\ buildDebugTree (fun s => s) 4 cyclic_document (Some 0) None (Some (Frac 5 1)) <> None
  /\ buildDebugTree (fun s => s) 12 cyclic_document (Some 0) (Some (Int 0)) (Some (Int 10))
     <> None.
Proof.
  destruct (debug_recursion_bounded (fun _ => "0") (fun s => s) V8_maxLength 2 0 (Frac 5 1))
    as (_ & _ & Hobj & Htree & Hcalled); [unfold two53; lia..|reflexivity|].
  split; [|split].
  - apply Hobj; [reflexivity..|unfold recursion_bound; simpl; lia].
  - apply Htree; [reflexivity..|unfold recursion_bound; simpl; lia].
  - apply Hcalled. lia.
Defined.

(** ** The tree [buildDebugTree] returns *)

(** The depths a tree carries: [d] at its root, one more at every level,
    and none beyond [m]. *)
Inductive depths_from (m : Z) : Z -> node -> Prop :=
  | depths_from_node d n :
      depth n = Int d -> (d <= m)%Z ->
      Forall (depths_from m (d + 1)) (node_children n) ->
      depths_from m d n.

(** The number of levels of a tree. *)
Fixpoint tree_height (n : node) : nat :=
  match n with
  | Node _ _ _ _ _ children _ =>
      S ((fix levels (nodes : list node) : nat :=
            match nodes with
            | [] => 0
            | child :: rest => Nat.max (tree_height child) (levels rest)
            end) children)
  end.

(** A property that holds of every node of a tree. *)
Inductive every_node (P : node -> Prop) : node -> Prop :=
  | every_node_intro n :
      P n -> Forall (every_node P) (node_children n) -> every_node P n.

(** The text a node may carry: none, or at most 100 characters and the
    three dots. *)
Definition short_content (n : node) : Prop :=
  match content n with
  | None => True
  | Some text => String.length text <= 103
  end.

Lemma assoc_set_keys k v o :
  (assoc_set k v o).*1 = if decide (k ∈ o.*1) then o.*1 else o.*1 ++ [k].
Proof.
  induction o as [|[k' v'] o IH]; cbn [assoc_set fmap list_fmap fst].
  - rewrite decide_False; [done|]. apply not_elem_of_nil.
  - destruct (String.eqb_spec k k') as [->|Hne].
    + rewrite decide_True; [done|]. apply elem_of_cons. by left.
    + cbn [fmap list_fmap fst]. rewrite IH.
      destruct (decide (k ∈ o.*1)) as [Hin|Hnot].
      * rewrite decide_True; [done|]. apply elem_of_cons. by right.
      * rewrite decide_False; [done|]. intros [?|?]%elem_of_cons; done.
Qed.

Lemma assoc_set_NoDup k v o : NoDup o.*1 -> NoDup (assoc_set k v o).*1.
Proof.
  intros Ho. rewrite assoc_set_keys. case_decide; [done|].
  apply NoDup_app. split; [done|]. split.
  - intros x Hx [->|Hnil%elem_of_nil]%elem_of_cons; done.
  - apply NoDup_singleton.
Qed.


Lemma fold_assoc_set_NoDup {A} (key value : A -> string) items : forall o,
  NoDup o.*1 ->
  NoDup (fold_left (fun acc item => assoc_set (key item) (value item) acc) items o).*1.
Proof.
  induction items as [|item items IH]; intros o Ho; [done|].
  cbn [fold_left]. apply IH. by apply assoc_set_NoDup.
Qed.



Lemma length_substring n m s : String.length (String.substring n m s) <= m.
Proof.
  revert n m. induction s as [|c s IH]; intros n m.
  - destruct n, m; cbn; lia.
  - destruct n as [|n]; [destruct m as [|m]|]; cbn [String.substring String.length].
    + lia.
    + specialize (IH 0 m). lia.
    + apply IH.
Qed.

Lemma length_append s t :
  String.length (s +:+ t) = String.length s + String.length t.
Proof.
  induction s as [|c s IH]; [done|].
  change (String c s +:+ t) with (String c (s +:+ t)).
  cbn [String.length]. by rewrite IH.
Qed.

Lemma collect_children_Forall (P : node -> Prop)
    (f : option loc -> option (option node)) children :
  (forall child c, child ∈ children -> f child = Some (Some c) -> P c) ->
  forall acc nodes,
    Forall P acc -> collect_children f children acc = Some nodes -> Forall P nodes.
Proof.
  induction children as [|child rest IH]; intros Hf acc nodes Hacc Hrun;
    cbn [collect_children] in Hrun.
  - by injection Hrun as <-.
  - destruct (f child) as [[c|]|] eqn:Hchild; [| |done].
    + apply (IH (fun x c' Hin => Hf x c' (list_elem_of_further _ _ _ Hin))
                (acc ++ [c])); [|done].
      apply Forall_app. split; [done|]. apply Forall_singleton.
      apply (Hf child); [apply list_elem_of_here|done].
    + by apply (IH (fun x c' Hin => Hf x c' (list_elem_of_further _ _ _ Hin)) acc).
Qed.

Lemma height_levels (n : node) (bound : nat) :
  Forall (fun child => tree_height child <= bound) (node_children n) ->
  tree_height n <= S bound.
Proof.
  destruct n as [t a s c d children r]. cbn [node_children tree_height].
  induction 1 as [|child rest Hchild _ IH]; [lia|]. lia.
Qed.

Lemma depths_from_height m : forall (k : nat) d n,
  (m + 1 - d <= Z.of_nat k)%Z -> depths_from m d n -> tree_height n <= k.
Proof.
  induction k as [|k IH]; intros d n Hk Hn.
  - destruct Hn as [d n _ Hle _]. lia.
  - destruct Hn as [d n _ Hle Hchildren].
    apply height_levels. eapply Forall_impl; [exact Hchildren|].
    intros child Hchild. apply (IH (d + 1)%Z); [lia|done].
Qed.


Section Trees.
Variable trim : string -> string.
Implicit Types (doc : document) (n : node).

(** What a completed call on a truthy element within the bound returns. *)
Lemma buildDebugTree_node fuel doc l depth maxDepth d m n :
  default (Int 5) maxDepth = Int m ->
  default (Int 0) depth = Int d ->
  buildDebugTree trim (S fuel) doc (Some l) depth maxDepth = Some (Some n) ->
  (d <= m)%Z
  /\ exists nodes,
      collect_children
        (fun child => buildDebugTree trim fuel doc child (Some (add1 (Int d))) (Some (Int m)))
        (children (doc l)) [] = Some nodes
      /\ n = Node (tagName (doc l))
               (fold_left (fun acc attr => assoc_set attr.1 attr.2 acc)
                          (attributes (doc l)) [])
               (fold_left
                  (fun acc prop =>
                     assoc_set prop.1 (getPropertyValue (style (doc l)) prop.1) acc)
                  (style (doc l)) [])
               (if String.eqb (textContent (doc l)) "" then None
                else Some (if (100 <? String.length (trim (textContent (doc l))))%nat
                           then String.substring 0 100 (trim (textContent (doc l)))
                                +:+ "..."
                           else trim (textContent (doc l))))
               (Int d) nodes (getBoundingClientRect (doc l)).
Proof.
  intros Hm Hd. rewrite buildDebugTree_S. unfold buildDebugTree_call.
  rewrite Hm, Hd. cbn [gt].
  destruct (m <? d)%Z eqn:Hgt; [done|]. apply Z.ltb_ge in Hgt.
  destruct (collect_children _ _ _) as [nodes|]; [|done].
  intros [= <-]. split; [done|]. by exists nodes.
Qed.

Lemma buildDebugTree_null fuel doc l (d m : Z) :
  buildDebugTree trim (S fuel) doc (Some l) (Some (Int d)) (Some (Int m)) = Some None ->
  (m < d)%Z.
Proof.
  rewrite buildDebugTree_S. unfold buildDebugTree_call.
  cbn [default from_option id gt].
  destruct (m <? d)%Z eqn:Hgt; [intros _; by apply Z.ltb_lt in Hgt|].
  by destruct (collect_children _ _ _).
Qed.

(** X9.  The tree [buildDebugTree] returns is labelled with its depths:
    the root carries the [depth] it was called with, every child one more
    than its parent, and no node a depth beyond [maxDepth]; so the tree has
    at most [maxDepth - depth + 1] levels.  (Integral depths from [-2^53]
    on and bounds below [2^53], where [depth + 1] is exact.) *)
Theorem buildDebugTree_depths doc (m : Z) fuel element depth maxDepth d n :
  (- two53 <= d)%Z ->
  (m < two53)%Z ->
  default (Int 5) maxDepth = Int m ->
  default (Int 0) depth = Int d ->
  buildDebugTree trim fuel doc element depth maxDepth = Some (Some n) ->
  depths_from m d n /\ (Z.of_nat (tree_height n) <= m + 1 - d)%Z.
Proof.
  intros Hlow Hsafe Hm Hd Hrun.
  assert (Hdepths : depths_from m d n).
  { revert element depth maxDepth d n Hlow Hm Hd Hrun.
    induction fuel as [|fuel IH]; intros element depth maxDepth d n Hlow Hm Hd Hrun;
      [done|].
    destruct element as [l|]; [|done].
    destruct (buildDebugTree_node _ _ _ _ _ _ _ _ Hm Hd Hrun)
      as (Hle & nodes & Hchildren & ->).
    constructor; simpl; [done..|].
    eapply collect_children_Forall; [|constructor|exact Hchildren].
    intros child c _ Hc.
    apply (IH child (Some (add1 (Int d))) (Some (Int m))); [lia|done| |done].
    cbn [default]. by rewrite (add1_exact d m). }
  split; [done|].
  assert (Hle : (d <= m)%Z) by (by destruct Hdepths).
  pose proof (depths_from_height m (Z.to_nat (m + 1 - d)) d n) as Hheight.
  specialize (Hheight ltac:(lia) Hdepths). lia.
Qed.


(** X11.  In every node of the tree the attributes carry distinct names,
    the styles carry distinct names, and the text is absent or at most 103
    characters long: the first 100 of the trimmed text and three dots. *)
Theorem buildDebugTree_nodes_well_formed doc fuel element depth maxDepth n :
  buildDebugTree trim fuel doc element depth maxDepth = Some (Some n) ->
  every_node
    (fun n => NoDup (node_attributes n).*1 /\ NoDup (styles n).*1 /\ short_content n) n.
Proof.
  revert element depth maxDepth n.
  induction fuel as [|fuel IH]; intros element depth maxDepth n Hrun; [done|].
  rewrite buildDebugTree_S in Hrun. unfold buildDebugTree_call in Hrun.
  destruct element as [l|]; [|done].
  destruct (gt _ _); [done|].
  destruct (collect_children _ _ _) as [nodes|] eqn:Hchildren; [|done].
  injection Hrun as <-. constructor; cbn [node_attributes styles node_children].
  - split; [|split].
    + apply (fold_assoc_set_NoDup fst snd). constructor.
    + apply (fold_assoc_set_NoDup fst (fun prop => getPropertyValue (style (doc l)) prop.1)).
      constructor.
    + unfold short_content. cbn [content].
      destruct (String.eqb _ _); [done|].
      destruct (100 <? _)%nat eqn:Hlong.
      * rewrite length_append. pose proof (length_substring 0 100 (trim (textContent (doc l)))).
        cbn [String.length]. lia.
      * apply Nat.ltb_ge in Hlong. lia.
  - eapply collect_children_Forall; [|constructor|exact Hchildren].
    intros child c _ Hc. by apply IH in Hc.
Qed.

End Trees.

(** ** What [debugObject] prints, and when it throws *)

Lemma forEach_returns {A} (f : A -> nat -> list string -> outcome (list string)) items :
  (forall item index out, exists lines, f item index out = Returned (out ++ lines)) ->
  forall index out, exists lines, forEach f items index out = Returned (out ++ lines).
Proof.
  intros Hf. induction items as [|item rest IH]; intros index out; cbn [forEach].
  - exists []. by rewrite app_nil_r.
  - destruct (Hf item index out) as [lines ->].
    destruct (IH (S index) (out ++ lines)) as [lines' ->].
    exists (lines ++ lines'). by rewrite app_assoc.
Qed.


Section Printing.
Variable Number_toString : spec_float -> string.
Variable String_maxLength : N.
Variable h : heap.
Variable opts : options.
Variables s m : Z.
Hypothesis indentSize_opts : default (Int 2) (indentSize opts) = Int s.
Hypothesis maxDepth_opts : default (Int 10) (maxDepth opts) = Int m.


End Printing.



(** ** [debugElement]: the tree as JSON, logged in chunks *)

(** The position an argument of [slice] stands for in a string of length
    [len]: [NaN] is 0, the fraction is cut off, a negative index counts
    from the end, and the result is clamped to the string. *)
Definition clamp_index (len : Z) (k : number) : Z :=
  match k with
  | NaN | NegInfinity => 0%Z
  | Infinity => len
  | finite =>
      let z := integer_part finite in
      if (z <? 0)%Z then Z.max (len + z) 0 else Z.min z len
  end.

(** [s.slice(start, end)] *)
Definition slice (s : string) (start end_ : number) : string :=
  let len := Z.of_nat (String.length s) in
  let from := clamp_index len start in
  let to := clamp_index len end_ in
  if (from <? to)%Z
  then String.substring (Z.to_nat from) (Z.to_nat (to - from)) s
  else "".

(** [for (let i = ...; i < json.length; i += chunkSize)
       console.error(json.slice(i, i + chunkSize))];
    one unit of fuel per test of the loop condition. *)
Fixpoint chunk_loop (fuel : nat) (json : string) (chunkSize i : number)
    (out : list string) : outcome (list string) :=
  match fuel with
  | O => OutOfFuel
  | S fuel =>
      if lt i (Int (Z.of_nat (String.length json)))
      then chunk_loop fuel json chunkSize (add i chunkSize)
             (out ++ [slice json i (add i chunkSize)])
      else Returned out
  end.

Section DebugElement.

(** [String.prototype.trim] and [JSON.stringify(tree, null, 2)], which the
    engine provides. *)
Variable trim : string -> string.
Variable JSON_stringify : node -> string.

(** [debugElement(element, chunkSize)] *)
Definition debugElement (fuel : nat) (doc : document) (element : option loc)
    (chunkSize : option number) (out : list string) : outcome (list string) :=
  let chunkSize := default (Int 1000) chunkSize in
  match buildDebugTree trim fuel doc element (Some (Int 0)) (Some (Int 10)) with
  | None => OutOfFuel
  | Some None => Returned out
  | Some (Some tree) => chunk_loop fuel (JSON_stringify tree) chunkSize (Int 0) out
  end.

End DebugElement.

(** The strings of a list, joined. *)
Definition joined (chunks : list string) : string := foldr String.append "" chunks.

Lemma round_to_double_nonpositive z :
  (z <= 0)%Z ->
  round_to_double z = NegInfinity \/ exists y, round_to_double z = Int y /\ (y <= 0)%Z.
Proof.
  intros Hz. unfold round_to_double.
  destruct (Z.abs z <=? two53)%Z eqn:Hle; [right; by exists z|].
  apply Z.leb_gt in Hle. unfold two53 in Hle.
  assert (Hneg : (z < 0)%Z) by lia.
  set (e := (Z.log2 (Z.abs z) - 52)%Z).
  set (q := Z.shiftr (Z.abs z) e).
  set (up := orb _ _). set (q' := if up then (q + 1)%Z else q).
  assert (Hq : (0 <= q)%Z) by (apply Z.shiftr_nonneg; lia).
  assert (Hq' : (0 <= q')%Z) by (unfold q'; destruct up; lia).
  assert (Hv : (0 <= Z.shiftl q' e)%Z) by (by apply Z.shiftl_nonneg).
  destruct (2 ^ 1024 <=? Z.shiftl q' e)%Z.
  - left. destruct (z <? 0)%Z eqn:Hlt; [done|]. apply Z.ltb_ge in Hlt. lia.
  - right. eexists. split; [done|]. rewrite Z.sgn_neg by done. lia.
Qed.

Lemma substring_empty n s : String.substring n 0 s = "".
Proof.
  revert n. induction s as [|c s IH]; intros [|n]; cbn [String.substring]; auto.
Qed.

Lemma substring_split s : forall n a b,
  String.substring n (a + b) s
  = String.substring n a s +:+ String.substring (n + a) b s.
Proof.
  induction s as [|c s IH]; intros n a b.
  - destruct n, a, b; reflexivity.
  - destruct n as [|n].
    + destruct a as [|a]; [reflexivity|].
      cbn [Nat.add String.substring].
      change (String c ?x +:+ ?y) with (String c (x +:+ y)).
      f_equal. apply (IH 0).
    + cbn [Nat.add String.substring]. apply IH.
Qed.

Lemma substring_length_exact s : forall n k,
  n + k <= String.length s -> String.length (String.substring n k s) = k.
Proof.
  induction s as [|c s IH]; intros n k Hk; cbn [String.length] in Hk.
  - assert (n = 0) as -> by lia. assert (k = 0) as -> by lia. reflexivity.
  - destruct n as [|n].
    + destruct k as [|k]; [reflexivity|].
      cbn [String.substring String.length]. rewrite (IH 0); [done|lia].
    + cbn [String.substring]. apply IH. lia.
Qed.

Lemma substring_whole s : String.substring 0 (String.length s) s = s.
Proof. induction s as [|c s IH]; [done|]. cbn [String.length String.substring]. by rewrite IH. Qed.

Lemma chunk_loop_S fuel json chunkSize i out :
  chunk_loop (S fuel) json chunkSize i out
  = if lt i (Int (Z.of_nat (String.length json)))
    then chunk_loop fuel json chunkSize (add i chunkSize)
           (out ++ [slice json i (add i chunkSize)])
    else Returned out.
Proof. reflexivity. Qed.

Lemma append_empty_r s : s +:+ "" = s.
Proof.
  induction s as [|c s IH]; [done|].
  change (String c s +:+ "") with (String c (s +:+ "")). by rewrite IH.
Qed.

Lemma lt_Int (x y : Z) : lt (Int x) (Int y) = (x <? y)%Z.
Proof. reflexivity. Qed.

(** The loop started at an index [i] prints what is left of the text from
    [i] on, in pieces of at most [c] characters. *)
Lemma chunk_loop_chunks json (c : nat) :
  1 <= c ->
  (Z.of_nat (String.length json + c) <= two53)%Z ->
  forall n i out,
    String.length json - i <= n ->
    exists chunks,
      (forall fuel, n < fuel ->
         chunk_loop fuel json (Int (Z.of_nat c)) (Int (Z.of_nat i)) out
         = Returned (out ++ chunks))
      /\ joined chunks = String.substring i (String.length json - i) json
      /\ Forall (fun chunk => 1 <= String.length chunk <= c) chunks
      /\ String.length json - i <= length chunks * c
         < String.length json - i + c.
Proof.
  intros Hc Hsafe. induction n as [|n IH]; intros i out Hn.
  - exists []. split; [|split; [|split]].
    + intros [|fuel] Hfuel; [lia|]. rewrite chunk_loop_S, lt_Int.
      rewrite app_nil_r.
      by destruct (Z.ltb_spec (Z.of_nat i) (Z.of_nat (String.length json))); [lia|].
    + replace (String.length json - i) with 0 by lia. by rewrite substring_empty.
    + constructor.
    + cbn [length]. lia.
  - destruct (decide (i < String.length json)) as [Hi|Hi].
    2:{ destruct (IH i out) as (chunks & Hrun & Hrest); [lia|].
        exists chunks. split; [|done]. intros fuel Hfuel. apply Hrun. lia. }
    set (chunk := String.substring i (Nat.min (i + c) (String.length json) - i) json).
    assert (Hadd : add (Int (Z.of_nat i)) (Int (Z.of_nat c)) = Int (Z.of_nat (i + c))).
    { cbn [add]. rewrite round_to_double_exact by lia. f_equal. lia. }
    assert (Hslice : slice json (Int (Z.of_nat i)) (Int (Z.of_nat (i + c))) = chunk).
    { unfold slice, clamp_index. cbn [integer_part].
      destruct (Z.ltb_spec (Z.of_nat i) 0); [lia|].
      destruct (Z.ltb_spec (Z.of_nat (i + c)) 0); [lia|].
      destruct (Z.ltb_spec (Z.min (Z.of_nat i) (Z.of_nat (String.length json)))
                  (Z.min (Z.of_nat (i + c)) (Z.of_nat (String.length json)))); [|lia].
      unfold chunk. f_equal; lia. }
    destruct (IH (i + c) (out ++ [chunk])) as (chunks & Hrun & Hjoined & Hsizes & Hcount);
      [lia|].
    exists (chunk :: chunks). split; [|split; [|split]].
    + intros [|fuel] Hfuel; [lia|]. rewrite chunk_loop_S, lt_Int.
      destruct (Z.ltb_spec (Z.of_nat i) (Z.of_nat (String.length json))); [|lia].
      rewrite Hadd, Hslice, Hrun by lia. by rewrite <- app_assoc.
    + cbn [joined foldr]. fold (joined chunks). rewrite Hjoined. unfold chunk.
      destruct (decide (i + c <= String.length json)) as [Hfull|Hlast].
      * rewrite Nat.min_l by done.
        replace (i + c - i) with c by lia.
        replace (String.length json - i) with (c + (String.length json - (i + c))) by lia.
        by rewrite substring_split.
      * rewrite Nat.min_r by lia.
        replace (String.length json - (i + c)) with 0 by lia.
        by rewrite substring_empty, append_empty_r.
    + constructor; [|done]. unfold chunk.
      rewrite substring_length_exact by lia. lia.
    + cbn [length Nat.mul].
      destruct (decide (i + c <= String.length json)) as [Hfull|Hlast]; [lia|].
      assert (length chunks = 0) as -> by nia. lia.
Qed.

(** With a step that is not positive the index never passes the end of a
    text that is not empty. *)
Lemma chunk_loop_stuck json (c : Z) :
  (c <= 0)%Z -> json <> "" ->
  forall fuel i out,
    i = NegInfinity \/ (exists x, i = Int x /\ (x <= 0)%Z) ->
    chunk_loop fuel json (Int c) i out = OutOfFuel.
Proof.
  intros Hc Hjson.
  assert (Hlen : (0 < Z.of_nat (String.length json))%Z)
    by (destruct json; [done|cbn [String.length]; lia]).
  induction fuel as [|fuel IH]; intros i out Hi; [done|].
  rewrite chunk_loop_S.
  destruct Hi as [->|(x & -> & Hx)].
  - cbn [lt gt add]. apply IH. by left.
  - rewrite lt_Int. destruct (Z.ltb_spec x (Z.of_nat (String.length json))); [|lia].
    apply IH. cbn [add]. apply round_to_double_nonpositive. lia.
Qed.

Section DebugElementProperties.
Variable trim : string -> string.
Variable JSON_stringify : node -> string.

(** X14.  [debugElement] logs the JSON text of the tree in full and in
    order: the chunks it prints, joined, are the text; each has between one
    and [chunkSize] characters; and their number is the length of the text
    divided by [chunkSize], rounded up.  (An integral [chunkSize] of at
    least 1, 1000 by default, small enough for the index to count
    exactly.) *)
Theorem debugElement_chunks doc element chunkSize (c : Z) tree fuel0 out :
  buildDebugTree trim fuel0 doc element (Some (Int 0)) (Some (Int 10))
  = Some (Some tree) ->
  default (Int 1000) chunkSize = Int c ->
  (1 <= c)%Z ->
  (Z.of_nat (String.length (JSON_stringify tree)) + c <= two53)%Z ->
  exists chunks,
    (forall fuel, fuel0 <= fuel -> String.length (JSON_stringify tree) < fuel ->
       debugElement trim JSON_stringify fuel doc element chunkSize out
       = Returned (out ++ chunks))
    /\ joined chunks = JSON_stringify tree
    /\ Forall (fun chunk => (1 <= Z.of_nat (String.length chunk) <= c)%Z) chunks
    /\ (Z.of_nat (String.length (JSON_stringify tree))
        <= Z.of_nat (length chunks) * c
        < Z.of_nat (String.length (JSON_stringify tree)) + c)%Z.
Proof.
  intros Htree Hsize Hc Hsafe.
  destruct (chunk_loop_chunks (JSON_stringify tree) (Z.to_nat c))
    with (n := String.length (JSON_stringify tree)) (i := 0) (out := out)
    as (chunks & Hrun & Hjoined & Hsizes & Hcount); [lia|lia|lia|].
  exists chunks. split; [|split; [|split]].
  - intros fuel Hfuel0 Hfuel. unfold debugElement.
    rewrite (buildDebugTree_fuel_le trim doc element _ _ fuel0 fuel), Htree, Hsize;
      [|done|by rewrite Htree].
    rewrite <- (Z2Nat.id c) by lia. by apply Hrun.
  - rewrite Hjoined, Nat.sub_0_r. apply substring_whole.
  - eapply Forall_impl; [exact Hsizes|]. cbn beta. lia.
  - nia.
Qed.

(** X15.  With a [chunkSize] that is zero or negative, [debugElement] on an
    element never returns: the index of the loop never passes the end of
    the text.  (The JSON text of a tree is never empty.) *)
Theorem debugElement_never_returns doc l (c : Z) out fuel :
  (c <= 0)%Z ->
  (forall tree, JSON_stringify tree <> "") ->
  debugElement trim JSON_stringify fuel doc (Some l) (Some (Int c)) out = OutOfFuel.
Proof.
  intros Hc Hjson. unfold debugElement.
  destruct (buildDebugTree trim fuel doc (Some l) _ _) as [[tree|]|] eqn:Htree; [| |done].
  - cbn [default from_option id]. apply chunk_loop_stuck; [done|apply Hjson|].
    right. by exists 0%Z.
  - destruct fuel as [|fuel']; [done|]. apply buildDebugTree_null in Htree. lia.
Qed.

End DebugElementProperties.

(** A panel with a caption, a missing child and an image. *)
Definition sample_document : document :=
  fun l =>
    match l with
    | 0 => Element "DIV" [("id", "root"); ("class", "panel")] [("color", "red")]
             "Title" [Some 1; None; Some 2] None
    | 1 => Element "SPAN" [] [] "" [] None
    | _ => Element "IMG" [("src", "a.png")] [] "" [] None
    end.

Definition sample_tree : node :=
  Node "DIV" [("id", "root"); ("class", "panel")] [("color", "red")]
    (Some "Title") (Int 0)
    [ Node "SPAN" [] [] None (Int 1) [] None;
      Node "IMG" [("src", "a.png")] [] None (Int 1) [] None ]
    None.

Example buildDebugTree_sample :
  buildDebugTree (fun s => s) 3 sample_document (Some 0) None None
  = Some (Some sample_tree).
Proof. vm_compute. reflexivity. Qed.

Lemma buildDebugTree_depths_witness :
  depths_from 5 0 sample_tree /\ (Z.of_nat (tree_height sample_tree) <= 5 + 1 - 0)%Z.
Proof.
  apply (buildDebugTree_depths (fun s => s) sample_document 5 3 (Some 0) None None 0);
    [unfold two53; lia|reflexivity..].
Defined.


Lemma buildDebugTree_nodes_well_formed_witness :
  every_node
    (fun n => NoDup (node_attributes n).*1 /\ NoDup (styles n).*1 /\ short_content n)
    sample_tree.
Proof.
  apply (buildDebugTree_nodes_well_formed (fun s => s) sample_document 3 (Some 0) None None).
  reflexivity.
Defined.



Lemma debugElement_chunks_witness :
  exists chunks,
    (forall fuel, 3 <= fuel -> String.length "hello world" < fuel ->
       debugElement (fun s => s) (fun _ => "hello world") fuel sample_document (Some 0)
         (Some (Int 4)) []
       = Returned ([] ++ chunks))
    /\ joined chunks = "hello world"
    /\ Forall (fun chunk => (1 <= Z.of_nat (String.length chunk) <= 4)%Z) chunks
    /\ (Z.of_nat (String.length "hello world") <= Z.of_nat (length chunks) * 4
        < Z.of_nat (String.length "hello world") + 4)%Z.
Proof.
  apply (debugElement_chunks (fun s => s) (fun _ => "hello world") sample_document
           (Some 0) (Some (Int 4)) 4 sample_tree 3 []);
    [reflexivity|reflexivity|lia|].
  unfold two53. simpl. lia.
Defined.

Lemma debugElement_never_returns_witness :
  debugElement (fun s => s) (fun _ => "{}") 50 sample_document (Some 0)
    (Some (Int 0)) []
  = OutOfFuel.
Proof.
  apply (debugElement_never_returns (fun s => s) (fun _ => "{}")); [lia|discriminate].
Defined.

End Debug.

(** ** mods/libs/media.js and model.js: the observers and the engine *)

Module Engine.

(** The methods the observers bind and hand to the engine. *)
Inductive method := OnClientResized | OnScaleUpdated | OnDataChanged.

(** The function object [method.bind(this)] returns.  Every call of [bind]
    makes a new function object; [identity] numbers them in the order they
    were made, and two function objects are the same object exactly when
    their identities are equal. *)
Record bound := Bound { target : method; identity : nat }.

(** The calls the observers make on [engine] and [viewEnv]. *)
Inductive call :=
  | EngineOn (name : string) (handler : bound)
  | EngineOff (name : string) (handler : bound)
  | AddDataChangedCallback (name : string) (resId : Z) (recursive : bool)
  | RemoveDataChangedCallback (callbackId : Js.value) (resId : Z).

(** What lies outside an observer: the number of function objects made so
    far and the calls made so far, oldest first. *)
Record world := World { allocated : nat; calls : list call }.

(** [method.bind(this)] *)
Definition bind (m : method) (w : world) : bound * world :=
  (Bound m (allocated w), World (S (allocated w)) (calls w)).

Definition emit (c : call) (w : world) : world :=
  World (allocated w) (calls w ++ [c]).

(** Taking the function object [f] out of a list of handlers. *)
Fixpoint remove_handler (f : bound) (handlers : list bound) : list bound :=
  match handlers with
  | [] => []
  | g :: rest =>
      if decide (identity g = identity f) then rest else g :: remove_handler f rest
  end.

Definition registry_step (name : string) (handlers : list bound) (c : call)
  : list bound :=
  match c with
  | EngineOn n f => if String.eqb n name then handlers ++ [f] else handlers
  | EngineOff n f => if String.eqb n name then remove_handler f handlers else handlers
  | _ => handlers
  end.

(** The handlers of the event [name] that were handed to [engine.on] and
    not handed to [engine.off] since, in the order they were registered. *)
Definition outstanding (name : string) (cs : list call) : list bound :=
  fold_left (registry_step name) cs [].

(** The function objects a call carries. *)
Definition handler_of (c : call) : option bound :=
  match c with
  | EngineOn _ f | EngineOff _ f => Some f
  | _ => None
  end.

(** Every function object the calls carry was made before. *)
Definition well_formed (w : world) : Prop :=
  forall c f, c ∈ calls w -> handler_of c = Some f -> identity f < allocated w.

Lemma remove_handler_absent f handlers :
  identity f ∉ identity <$> handlers -> remove_handler f handlers = handlers.
Proof.
  induction handlers as [|g rest IH]; [done|].
  cbn [remove_handler fmap list_fmap]. intros Hf.
  apply not_elem_of_cons in Hf as [Hne Hf].
  rewrite decide_False by done. by rewrite IH.
Qed.

Lemma remove_handler_subseteq f handlers : remove_handler f handlers ⊆ handlers.
Proof.
  induction handlers as [|g rest IH]; [done|]. cbn [remove_handler].
  case_decide; [apply list_subseteq_cons, reflexivity|].
  intros x [->|Hx]%elem_of_cons; [by left|right; by apply IH].
Qed.

Lemma outstanding_snoc name cs c :
  outstanding name (cs ++ [c]) = registry_step name (outstanding name cs) c.
Proof. unfold outstanding. by rewrite fold_left_app. Qed.

Lemma outstanding_registered name cs f :
  f ∈ outstanding name cs -> EngineOn name f ∈ cs.
Proof.
  induction cs as [|c cs IH] using rev_ind; [by intros ?%elem_of_nil|].
  rewrite outstanding_snoc, elem_of_app. intros Hf.
  destruct c as [n g|n g| |]; cbn [registry_step] in Hf; try (left; by apply IH).
  - destruct (String.eqb_spec n name) as [->|_]; [|left; by apply IH].
    apply elem_of_app in Hf as [Hf|Hf]; [left; by apply IH|].
    apply list_elem_of_singleton in Hf as ->. right. apply list_elem_of_singleton. done.
  - destruct (String.eqb n name); [|left; by apply IH].
    left. apply IH. by apply (remove_handler_subseteq g).
Qed.

Lemma outstanding_allocated name w f :
  well_formed w -> f ∈ outstanding name (calls w) -> identity f < allocated w.
Proof.
  intros Hw Hf. apply (Hw (EngineOn name f)); [|done]. by apply outstanding_registered.
Qed.

End Engine.

(** *** media.js: [MediaContext] *)

Module MediaContext.
Import Engine.

(** [context.subscribe()] *)
Definition subscribe (w : world) : world :=
  let '(onClientResized, w) := bind OnClientResized w in
  let w := emit (EngineOn "clientResized" onClientResized) w in
  let '(onScaleUpdated, w) := bind OnScaleUpdated w in
  emit (EngineOn "self.onScaleUpdated" onScaleUpdated) w.

(** [context.unsubscribe()] *)
Definition unsubscribe (w : world) : world :=
  let '(onClientResized, w) := bind OnClientResized w in
  let w := emit (EngineOff "clientResized" onClientResized) w in
  let '(onScaleUpdated, w) := bind OnScaleUpdated w in
  emit (EngineOff "self.onScaleUpdated" onScaleUpdated) w.

(** The calls a client makes on the context, in any order and number. *)
Inductive op := Subscribe | Unsubscribe.

#[global] Instance op_eq_dec : EqDecision op.
Proof. solve_decision. Defined.

Definition step (w : world) (o : op) : world :=
  match o with
  | Subscribe => subscribe w
  | Unsubscribe => unsubscribe w
  end.

Definition run (ops : list op) (w : world) : world := fold_left step ops w.

Lemma subscribe_calls w :
  calls (subscribe w)
  = (calls w ++ [EngineOn "clientResized" (Bound OnClientResized (allocated w))])
    ++ [EngineOn "self.onScaleUpdated" (Bound OnScaleUpdated (S (allocated w)))].
Proof. reflexivity. Qed.

Lemma unsubscribe_calls w :
  calls (unsubscribe w)
  = (calls w ++ [EngineOff "clientResized" (Bound OnClientResized (allocated w))])
    ++ [EngineOff "self.onScaleUpdated" (Bound OnScaleUpdated (S (allocated w)))].
Proof. reflexivity. Qed.

Lemma step_well_formed w o : well_formed w -> well_formed (step w o).
Proof.
  intros Hw c f Hc Hf.
  assert (Hold : c ∈ calls w -> identity f < S (S (allocated w)))
    by (intros Hin; pose proof (Hw c f Hin Hf); lia).
  destruct o; cbn [step] in *;
    [rewrite subscribe_calls in Hc|rewrite unsubscribe_calls in Hc];
    apply elem_of_app in Hc as [[Hc|Hc]%elem_of_app|Hc];
    try (by apply Hold);
    apply list_elem_of_singleton in Hc as ->; injection Hf as <-; cbn; lia.
Qed.

Lemma run_snoc ops o w : run (ops ++ [o]) w = step (run ops w) o.
Proof. unfold run. by rewrite fold_left_app. Qed.

Lemma run_well_formed ops a : well_formed (run ops (World a [])).
Proof.
  induction ops as [|o ops IH] using rev_ind.
  - intros c f Hc. by apply elem_of_nil in Hc.
  - rewrite run_snoc. by apply step_well_formed.
Qed.

Lemma outstanding_subscribe name w :
  outstanding name (calls (subscribe w))
  = outstanding name (calls w)
    ++ (if String.eqb "clientResized" name
        then [Bound OnClientResized (allocated w)] else [])
    ++ (if String.eqb "self.onScaleUpdated" name
        then [Bound OnScaleUpdated (S (allocated w))] else []).
Proof.
  rewrite subscribe_calls, !outstanding_snoc. cbn [registry_step].
  destruct (String.eqb "clientResized" name), (String.eqb "self.onScaleUpdated" name);
    by rewrite ?app_nil_r, <- ?app_assoc.
Qed.

Lemma outstanding_unsubscribe name w :
  well_formed w ->
  outstanding name (calls (unsubscribe w)) = outstanding name (calls w).
Proof.
  intros Hw. rewrite unsubscribe_calls, !outstanding_snoc. cbn [registry_step].
  assert (Hfresh : forall m k, allocated w <= k ->
            remove_handler (Bound m k) (outstanding name (calls w))
            = outstanding name (calls w)).
  { intros m k Hk. apply remove_handler_absent.
    intros (f & Hid & Hf)%list_elem_of_fmap.
    pose proof (outstanding_allocated name w f Hw Hf). cbn in Hid. lia. }
  destruct (String.eqb "clientResized" name), (String.eqb "self.onScaleUpdated" name);
    by rewrite ?Hfresh by lia.
Qed.

(** X16.  [unsubscribe] takes no handler off the engine: it hands
    [engine.off] function objects that [bind] has just made, never the ones
    [subscribe] registered.  After any sequence of [subscribe] and
    [unsubscribe] calls every handler ever registered is still registered,
    one for each event per call of [subscribe]. *)
Theorem unsubscribe_removes_nothing (ops : list op) (a : nat) :
  (forall name f,
      EngineOn name f ∈ calls (run ops (World a [])) ->
      f ∈ outstanding name (calls (run ops (World a []))))
  /\ length (outstanding "clientResized" (calls (run ops (World a []))))
     = length (filter (fun o => o = Subscribe) ops)
  /\ length (outstanding "self.onScaleUpdated" (calls (run ops (World a []))))
     = length (filter (fun o => o = Subscribe) ops).
Proof.
  induction ops as [|o ops (IHall & IHresized & IHscale)] using rev_ind.
  - split; [|done]. intros name f Hin. by apply elem_of_nil in Hin.
  - rewrite run_snoc, filter_app, length_app.
    pose proof (run_well_formed ops a) as Hw.
    destruct o; cbn [step].
    + rewrite !outstanding_subscribe, !length_app, IHresized, IHscale.
      split; [|done]. intros name f Hin. rewrite outstanding_subscribe.
      rewrite subscribe_calls in Hin.
      apply elem_of_app in Hin as [[Hin|Hin]%elem_of_app|Hin].
      * apply elem_of_app. left. by apply IHall.
      * apply list_elem_of_singleton in Hin. injection Hin as <- <-.
        rewrite String.eqb_refl. apply elem_of_app. right.
        apply elem_of_app. left. by apply list_elem_of_singleton.
      * apply list_elem_of_singleton in Hin. injection Hin as <- <-.
        rewrite String.eqb_refl. apply elem_of_app. right.
        apply elem_of_app. right. by apply list_elem_of_singleton.
    + rewrite !outstanding_unsubscribe by done. rewrite IHresized, IHscale.
      change (filter (fun o => o = Subscribe) [Unsubscribe]) with (@nil op).
      split; [|cbn [length]; lia]. intros name f Hin. rewrite outstanding_unsubscribe by done.
      rewrite unsubscribe_calls in Hin.
      apply elem_of_app in Hin as [[Hin|Hin]%elem_of_app|Hin].
      * by apply IHall.
      * by apply list_elem_of_singleton in Hin.
      * by apply list_elem_of_singleton in Hin.
Qed.

End MediaContext.

(** *** model.js: [ModelObserver] *)

Module ModelObserver.
Import Js Engine.

(** The fields of the observer its methods read and write.  Sub-views are
    numbered, the root model has number 0; [_boundOnDataChanged] is [None]
    while the field is [undefined] or [null]. *)
Record context := Context {
  resId : Z;
  callbackId : Js.value;
  _boundOnDataChanged : option bound
}.

(** The context [ModelObserver(featureName)] returns. *)
Definition create : context := Context 0 VNull None.

(** [context.subscribe()]; [returned] is what
    [viewEnv.addDataChangedCallback] returns. *)
Definition subscribe (returned : Js.value) (ctx : context) (w : world)
  : context * world :=
  match _boundOnDataChanged ctx with
  | Some _ => (ctx, w)
  | None =>
      let '(onDataChanged, w) := bind OnDataChanged w in
      let w := emit (EngineOn "viewEnv.onDataChanged" onDataChanged) w in
      let w := emit (AddDataChangedCallback "model" (resId ctx) true) w in
      (Context (resId ctx) returned (Some onDataChanged), w)
  end.

(** [context.unsubscribe()] *)
Definition unsubscribe (ctx : context) (w : world) : context * world :=
  let '(ctx, w) :=
    match _boundOnDataChanged ctx with
    | Some onDataChanged =>
        (Context (resId ctx) (callbackId ctx) None,
         emit (EngineOff "viewEnv.onDataChanged" onDataChanged) w)
    | None => (ctx, w)
    end in
  if truthy (callbackId ctx)
  then (Context (resId ctx) VNull (_boundOnDataChanged ctx),
        emit (RemoveDataChangedCallback (callbackId ctx) (resId ctx)) w)
  else (ctx, w).

(** [window.subViews.get(resId)?.model] *)
Definition subView_model (subViews : gmap Z Js.value) (resId : Z) : Js.value :=
  get_prop_opt (default VUndefined (subViews !! resId)) "model".

(** [context.model] *)
Definition model (ctx : context) (subViews : gmap Z Js.value) (window_model : Js.value)
  : Js.value :=
  if (resId ctx =? 0)%Z then window_model else subView_model subViews (resId ctx).

(** [modModel.name], on a truthy [modModel]: a function carries its name. *)
Definition name_of (modModel : Js.value) : Js.value :=
  match modModel with
  | VFunction name => VString name
  | other => get_prop other "name"
  end.

(** [modModel && modModel.name === featureName], for a string
    [featureName]. *)
Definition matches (featureName : string) (subViews : gmap Z Js.value) (resId : Z)
  : bool :=
  let modModel := get_prop_opt (subView_model subViews resId) "ModInjectModel" in
  truthy modModel
  && match name_of modModel with
     | VString name => String.eqb name featureName
     | _ => false
     end.

(** The loop over [window.subViews.ids()], left at the first match. *)
Fixpoint find_resId (featureName : string) (subViews : gmap Z Js.value)
    (ids : list Z) (ctx : context) : context :=
  match ids with
  | [] => ctx
  | id :: rest =>
      if matches featureName subViews id
      then Context id (callbackId ctx) (_boundOnDataChanged ctx)
      else find_resId featureName subViews rest ctx
  end.

(** What [ModelObserver(featureName)] schedules for the time the engine is
    ready; [featureName] is [None] when the argument is left out. *)
Definition whenReady (featureName : option string) (subViews : gmap Z Js.value)
    (ids : list Z) (ctx : context) : context :=
  match featureName with
  | None => ctx
  | Some name =>
      if String.eqb name "" then ctx else find_resId name subViews ids ctx
  end.

(** What may happen to an observer, in any order and number. *)
Inductive op :=
  | Subscribe (returned : Js.value)
  | Unsubscribe
  | Ready (featureName : option string) (subViews : gmap Z Js.value) (ids : list Z).

Definition step (s : context * world) (o : op) : context * world :=
  match o with
  | Subscribe returned => subscribe returned s.1 s.2
  | Unsubscribe => unsubscribe s.1 s.2
  | Ready featureName subViews ids => (whenReady featureName subViews ids s.1, s.2)
  end.

Definition run (ops : list op) (s : context * world) : context * world :=
  fold_left step ops s.

Lemma find_resId_fields featureName subViews ids ctx :
  callbackId (find_resId featureName subViews ids ctx) = callbackId ctx
  /\ _boundOnDataChanged (find_resId featureName subViews ids ctx)
     = _boundOnDataChanged ctx.
Proof.
  induction ids as [|id rest IH]; [done|]. cbn [find_resId].
  by destruct (matches featureName subViews id).
Qed.

Lemma whenReady_fields featureName subViews ids ctx :
  callbackId (whenReady featureName subViews ids ctx) = callbackId ctx
  /\ _boundOnDataChanged (whenReady featureName subViews ids ctx)
     = _boundOnDataChanged ctx.
Proof.
  destruct featureName as [name|]; [|done]. cbn [whenReady].
  destruct (String.eqb name ""); [done|]. apply find_resId_fields.
Qed.

(** X17.  An observer keeps at most one handler on the engine: [subscribe]
    registers one unless one is registered, and [unsubscribe] hands
    [engine.off] the very function object that was registered.  After any
    sequence of calls the handlers still registered are the one the context
    holds, or none. *)
Theorem subscription_paired (ops : list op) (r : Z) (id : Js.value) (a : nat) :
  outstanding "viewEnv.onDataChanged"
    (calls (run ops (Context r id None, World a [])).2)
  = match _boundOnDataChanged (run ops (Context r id None, World a [])).1 with
    | Some onDataChanged => [onDataChanged]
    | None => []
    end.
Proof.
  induction ops as [|o ops IH] using rev_ind; [done|].
  unfold run in *. rewrite fold_left_app. cbn [fold_left].
  destruct (fold_left step ops _) as [[r' id' handler] w].
  cbn [fst snd _boundOnDataChanged] in IH.
  destruct o as [returned| |featureName subViews ids]; cbn [step fst snd].
  - unfold subscribe. cbn [_boundOnDataChanged resId].
    destruct handler as [f|]; [done|].
    cbn [bind emit fst snd calls _boundOnDataChanged allocated].
    by rewrite !outstanding_snoc, IH.
  - unfold unsubscribe. cbn [_boundOnDataChanged resId callbackId].
    destruct handler as [f|].
    + assert (Hoff : outstanding "viewEnv.onDataChanged"
                       (calls (emit (EngineOff "viewEnv.onDataChanged" f) w)) = []).
      { cbn [emit calls]. rewrite outstanding_snoc, IH. cbn [registry_step].
        rewrite String.eqb_refl. cbn [remove_handler]. by rewrite decide_True. }
      cbn [callbackId resId _boundOnDataChanged].
      destruct (truthy id'); cbn [fst snd _boundOnDataChanged]; [|done].
      cbn [emit calls allocated] in *. by rewrite outstanding_snoc, Hoff.
    + cbn [callbackId resId _boundOnDataChanged].
      destruct (truthy id'); cbn [fst snd _boundOnDataChanged]; [|done].
      cbn [emit calls]. by rewrite outstanding_snoc, IH.
  - rewrite (proj2 (whenReady_fields featureName subViews ids _)). done.
Qed.

Lemma whenReady_resId featureName subViews ids ctx ctx' :
  resId ctx = resId ctx' ->
  resId (whenReady featureName subViews ids ctx)
  = resId (whenReady featureName subViews ids ctx').
Proof.
  intros Hctx. destruct featureName as [name|]; [|done]. cbn [whenReady].
  destruct (String.eqb name ""); [done|].
  induction ids as [|id rest IH]; [done|]. cbn [find_resId].
  by destruct (matches name subViews id).
Qed.

(** X18.  A subscription made before the engine is ready is made for the
    [resId] the context has then, 0 for a new observer, whatever feature it
    was created for; the later [unsubscribe] hands
    [viewEnv.removeDataChangedCallback] the [resId] found in the meantime.
    The callback is removed only when the id [viewEnv] returned for it is
    truthy. *)
Theorem subscription_before_ready (returned : Js.value) (ctx : context) (w : world)
    (featureName : option string) (subViews : gmap Z Js.value) (ids : list Z) :
  _boundOnDataChanged ctx = None ->
  calls (run [Subscribe returned; Ready featureName subViews ids; Unsubscribe] (ctx, w)).2
  = calls w
    ++ [ EngineOn "viewEnv.onDataChanged" (Bound OnDataChanged (allocated w));
         AddDataChangedCallback "model" (resId ctx) true;
         EngineOff "viewEnv.onDataChanged" (Bound OnDataChanged (allocated w)) ]
    ++ (if truthy returned
        then [RemoveDataChangedCallback returned
                (resId (whenReady featureName subViews ids ctx))]
        else []).
Proof.
  intros Hbound. cbn [run fold_left step fst snd]. unfold subscribe. rewrite Hbound.
  cbn [bind emit fst snd calls allocated].
  set (ctx1 := Context (resId ctx) returned _).
  destruct (whenReady_fields featureName subViews ids ctx1) as [Hid Hhandler].
  unfold unsubscribe. rewrite Hhandler. cbn [ctx1 _boundOnDataChanged callbackId resId].
  rewrite Hid. cbn [ctx1 callbackId emit calls allocated].
  rewrite (whenReady_resId featureName subViews ids ctx1 ctx) by done.
  destruct (truthy returned); cbn [snd calls emit]; by rewrite <- !app_assoc.
Qed.

(** X19.  When the engine is ready an observer created for a feature takes
    the first sub-view, in the order of [window.subViews.ids()], whose
    [ModInjectModel] is truthy and carries that name; [model] is then the
    model of that sub-view, the one carrying the feature.  When no sub-view
    matches the context stays as it is.  A matching sub-view numbered 0
    leaves [model] at [window.model]. *)
Theorem whenReady_first_match (name : string) (subViews : gmap Z Js.value)
    (ids : list Z) (ctx : context) (window_model : Js.value) :
  name <> "" ->
  (exists before id after,
      ids = before ++ id :: after
      /\ Forall (fun i => matches name subViews i = false) before
      /\ matches name subViews id = true
      /\ whenReady (Some name) subViews ids ctx
         = Context id (callbackId ctx) (_boundOnDataChanged ctx)
      /\ (id <> 0%Z ->
          model (whenReady (Some name) subViews ids ctx) subViews window_model
          = subView_model subViews id
          /\ name_of (get_prop_opt (subView_model subViews id) "ModInjectModel")
             = VString name)
      /\ (id = 0%Z ->
          model (whenReady (Some name) subViews ids ctx) subViews window_model
          = window_model))
  \/ (Forall (fun i => matches name subViews i = false) ids
      /\ whenReady (Some name) subViews ids ctx = ctx).
Proof.
  intros Hname. cbn [whenReady].
  destruct (String.eqb_spec name "") as [->|_]; [done|].
  induction ids as [|id rest IH].
  - right. by split.
  - cbn [find_resId]. destruct (matches name subViews id) eqn:Hmatch.
    + left. exists [], id, rest. split; [done|]. split; [constructor|].
      split; [done|]. split; [done|]. unfold model. cbn [resId]. split.
      * intros Hid. destruct (Z.eqb_spec id 0); [done|]. split; [done|].
        unfold matches in Hmatch. apply andb_prop in Hmatch as [_ Hmatch].
        destruct (name_of _) as [| | | |s| | | | |]; try done.
        by apply String.eqb_eq in Hmatch as ->.
      * by intros ->.
    + destruct IH as [(before & id' & after & -> & Hbefore & Hid' & Hready & Hmodel)
                     |[Hnone Hready]].
      * left. exists (id :: before), id', after. split; [done|].
        split; [by constructor|]. split; [done|]. by split.
      * right. split; [by constructor|done].
Qed.

Lemma subscription_before_ready_witness :
  calls (run [Subscribe (VNumber (S754_finite false 4503599627370496 (-52)));
              Ready (Some "mod")
                {[ 7%Z := VObject [("model",
                     VObject [("ModInjectModel", VObject [("name", VString "mod")])])] ]}
                [7%Z];
              Unsubscribe] (create, World 0 [])).2
  = [] ++ [ EngineOn "viewEnv.onDataChanged" (Bound OnDataChanged 0);
            AddDataChangedCallback "model" 0 true;
            EngineOff "viewEnv.onDataChanged" (Bound OnDataChanged 0) ]
       ++ [RemoveDataChangedCallback (VNumber (S754_finite false 4503599627370496 (-52)))
             (resId (whenReady (Some "mod")
                {[ 7%Z := VObject [("model",
                     VObject [("ModInjectModel", VObject [("name", VString "mod")])])] ]}
                [7%Z] create))].
Proof.
  apply (subscription_before_ready
           (VNumber (S754_finite false 4503599627370496 (-52))) create (World 0 [])).
  reflexivity.
Defined.

Example subscription_before_ready_resId :
  resId (whenReady (Some "mod")
           {[ 7%Z := VObject [("model",
                VObject [("ModInjectModel", VObject [("name", VString "mod")])])] ]}
           [7%Z] create) = 7%Z.
Proof. vm_compute. reflexivity. Qed.

(** Three sub-views: one without a model, then two that carry the feature
    ["mod"]. *)
Definition sample_subViews : gmap Z Js.value :=
  {[ 3%Z := VObject [("title", VString "lobby")];
     7%Z := VObject [("model",
              VObject [("ModInjectModel",
                VObject [("name", VString "mod"); ("styles", VArray [])])])];
     9%Z := VObject [("model",
              VObject [("ModInjectModel", VObject [("name", VString "mod")])])] ]}.

Lemma whenReady_first_match_witness :
  exists before id after,
    [3%Z; 7%Z; 9%Z] = before ++ id :: after
    /\ Forall (fun i => matches "mod" sample_subViews i = false) before
    /\ matches "mod" sample_subViews id = true
    /\ whenReady (Some "mod") sample_subViews [3%Z; 7%Z; 9%Z] create
       = Context id (callbackId create) (_boundOnDataChanged create)
    /\ id = 7%Z
    /\ model (whenReady (Some "mod") sample_subViews [3%Z; 7%Z; 9%Z] create)
         sample_subViews VNull
       = subView_model sample_subViews 7.
Proof.
  destruct (whenReady_first_match "mod" sample_subViews [3%Z; 7%Z; 9%Z] create VNull)
    as [(before & id & after & Hids & Hbefore & Hmatch & Hready & Hmodel & _)
       |[Hnone _]]; [discriminate| |].
  - assert (Hid : id = 7%Z).
    { assert (Hrun : whenReady (Some "mod") sample_subViews [3%Z; 7%Z; 9%Z] create
                     = Context 7 VNull None) by (vm_compute; reflexivity).
      rewrite Hrun in Hready. by injection Hready. }
    exists before, id, after. repeat split; try done.
  - exfalso. apply Forall_cons in Hnone as [_ Hnone].
    apply Forall_cons in Hnone as [Hseven _]. vm_compute in Hseven. discriminate.
Defined.

End ModelObserver.

(** ** The res_map reconciliation pipeline (Python side) *)

Module ResMap.

(** Modelled from the spec: ReadinessState (section 3); the res_map manager
    is the Python side of the repository, of which the JavaScript sources
    hold nothing. *)
Inductive ReadinessState := Pending | Validated.

(** Modelled from the spec: the error taxonomy (section 7).
    [InvalidItemError] is the report for an item without a well-formed
    string [itemID], which the taxonomy does not name. *)
Inductive error :=
  | FragmentParseError (source : string)
  | InvalidItemError (source : string)
  | DuplicateIdentifierError (itemID : string)
  | CatalogReadError
  | KeyAllocationExhaustedError (itemID : string)
  | PersistenceError.

#[global] Instance error_eq_dec : EqDecision error.
Proof. solve_decision. Defined.

(** Modelled from the spec: a FragmentItem (section 3) as parsed: its
    [itemID] field when it is a string, and the rest of the item, which
    becomes the CatalogEntry. *)
Record FragmentItem (entry : Type) := Item {
  itemID : option string;
  content : entry
}.
Arguments Item {entry} itemID content.
Arguments itemID {entry} _.
Arguments content {entry} _.

(** Modelled from the spec: a Fragment (section 3), one configuration file:
    where it comes from, and its items when it parses to a list. *)
Record Fragment (entry : Type) := FragmentFile {
  source : string;
  parsed : option (list (FragmentItem entry))
}.
Arguments FragmentFile {entry} source parsed.
Arguments source {entry} _.
Arguments parsed {entry} _.

Section Pipeline.

(** The content of a catalog entry (compared structurally), the content of
    a file, and the callbacks given to [on_ready]. *)
Context {entry bytes callback : Type} `{EqDecision entry}.

(** The hash that keys are derived from, and the writer and the reader of
    the catalog file format. *)
Variable hash : string -> entry -> string.
Variable serialize : gmap string entry -> bytes.
Variable parse : bytes -> option (gmap string entry).

(** *** Fragment Loader *)

(** Modelled from the spec: the Fragment Loader (section 4.1), whose source
    is not part of the JavaScript files.  Items are taken in order; an item
    without a string [itemID] is reported and skipped, an item whose
    [itemID] was accepted before is reported and skipped, a fragment that
    does not parse to a list is reported and skipped.  The state is the
    accepted items so far and the reports so far. *)
Definition load_item (src : string) (st : list (string * entry) * list error)
    (item : FragmentItem entry) : list (string * entry) * list error :=
  match itemID item with
  | None => (st.1, st.2 ++ [InvalidItemError src])
  | Some id =>
      if decide (id ∈ st.1.*1)
      then (st.1, st.2 ++ [DuplicateIdentifierError id])
      else (st.1 ++ [(id, content item)], st.2)
  end.

(** Modelled from the spec: the Fragment Loader on one fragment file
    (section 4.1); a file that does not parse to a list is reported. *)
Definition load_fragment (st : list (string * entry) * list error)
    (f : Fragment entry) : list (string * entry) * list error :=
  match parsed f with
  | None => (st.1, st.2 ++ [FragmentParseError (source f)])
  | Some items => fold_left (load_item (source f)) items st
  end.

(** Modelled from the spec: the Fragment Loader on all fragment files, in
    enumeration order (section 4.1): the accepted items and the reports. *)
Definition load_fragments (fragments : list (Fragment entry))
  : list (string * entry) * list error :=
  fold_left load_fragment fragments ([], []).

(** *** Key Allocator *)

(** Modelled from the spec: the Key Allocator (section 4.2).  The key is
    the hash; on a collision with a key in use it is extended with a
    counter, 1, 2, ..., until it is unique.  One more attempt than there
    are keys in use is allowed; [None] is KeyAllocationExhaustedError. *)
Definition candidate_key (base : string) (n : nat) : string :=
  match n with
  | O => base
  | S _ => base +:+ pretty n
  end.

(** Modelled from the spec: the collision policy (section 4.2), the first
    candidate from the [n]-th on that is not in use. *)
Fixpoint probe (attempts : nat) (used : gset string) (base : string) (n : nat)
  : option string :=
  match attempts with
  | O => None
  | S attempts =>
      let key := candidate_key base n in
      if decide (key ∈ used) then probe attempts used base (S n) else Some key
  end.

(** Modelled from the spec: the key derived for an item (section 4.2). *)
Definition allocate (used : gset string) (id : string) (e : entry) : option string :=
  probe (S (size used)) used (hash id e) 0.

(** *** Catalog Merger *)

(** Modelled from the spec: what the merge has built (sections 3 and 4.3),
    the IdentifierIndex ([itemID] to key, in allocation order), the
    generated entries and the reports. *)
Record merged := Merged {
  index : list (string * string);
  generated : gmap string entry;
  merge_reports : list error
}.

(** Modelled from the spec: the Catalog Merger (section 4.3).  Each accepted
    item gets a key that is neither a key of the original catalog nor the
    key of an earlier item; an item without a key is reported and skipped. *)
Definition merge_item (original : gmap string entry) (st : merged)
    (item : string * entry) : merged :=
  match allocate (dom original ∪ dom (generated st)) item.1 item.2 with
  | Some key =>
      Merged (index st ++ [(item.1, key)]) (<[key := item.2]> (generated st))
             (merge_reports st)
  | None =>
      Merged (index st) (generated st)
             (merge_reports st ++ [KeyAllocationExhaustedError item.1])
  end.

(** Modelled from the spec: the Catalog Merger over the accepted items, in
    order (section 4.3). *)
Definition merge (original : gmap string entry) (accepted : list (string * entry))
  : merged :=
  fold_left (merge_item original) accepted (Merged [] ∅ []).

(** Modelled from the spec: the candidate combined catalog (section 4.3),
    the original entries and the generated ones, and the IdentifierIndex
    that goes with it. *)
Definition candidate (original : gmap string entry) (fragments : list (Fragment entry))
  : gmap string entry :=
  original ∪ generated (merge original (load_fragments fragments).1).

Definition identifier_index (original : gmap string entry)
    (fragments : list (Fragment entry)) : list (string * string) :=
  index (merge original (load_fragments fragments).1).

(** *** Catalog Store *)

(** Modelled from the spec: the files (section 6), the shipped catalog, the
    combined catalog and the RestartFlag marker; a missing file is [None].
    [writable] tells whether the combined catalog can be written: where it
    cannot, [persist] fails with the PersistenceError of section 7.  The
    specification names no error for reading a file that is there, for
    deleting the combined catalog or for the marker, so these succeed. *)
Record disk := Disk {
  shipped : option bytes;
  combined : option bytes;
  restart_flag : bool;
  writable : bool
}.

(** Modelled from the spec: the Catalog Store (section 4.4).
    [load_original] is [None] on CatalogReadError, [load_existing_combined]
    on an absent or malformed file. *)
Definition load_original (d : disk) : option (gmap string entry) :=
  shipped d ≫= parse.

(** Modelled from the spec: [load_existing_combined()] (section 4.4). *)
Definition load_existing_combined (d : disk) : option (gmap string entry) :=
  combined d ≫= parse.

(** Modelled from the spec: [persist(candidate)] (section 4.4); the write
    replaces the file as a whole, or it fails ([None], the PersistenceError
    of section 7) and leaves the file as it was. *)
Definition written (c : gmap string entry) (d : disk) : disk :=
  Disk (shipped d) (Some (serialize c)) (restart_flag d) (writable d).

Definition persist (c : gmap string entry) (d : disk) : option disk :=
  if writable d then Some (written c d) else None.

(** Modelled from the spec: [equals(candidate, existing)] (section 4.4),
    equality of the two mappings, whatever the order of their keys. *)
Definition equals (c existing : gmap string entry) : bool :=
  bool_decide (c = existing).

(** Modelled from the spec: [delete_combined()] (section 4.4). *)
Definition delete_combined (d : disk) : disk :=
  Disk (shipped d) None (restart_flag d) (writable d).

(** Modelled from the spec: the deletion of the RestartFlag marker
    (section 3). *)
Definition clear_restart_flag (d : disk) : disk :=
  Disk (shipped d) (combined d) false (writable d).

(** Modelled from the spec: what a run does that can be observed from
    outside, the calls of sections 4.4 to 4.6 and the reports of section 7. *)
Inductive event :=
  | Report (e : error)
  | PersistInvoked (c : gmap string entry)
  | CombinedDeleted
  | RestartFlagCleared
  | RestartRequested
  | RestartSignalled
  | Invoked (cb : callback).

(** *** Restart Coordinator *)

(** Modelled from the spec: [request_restart()] (section 4.6) sets the
    RestartFlag and signals the restart, and does nothing when the flag is
    set already.  [RestartRequested] records the call, [RestartSignalled]
    the signal. *)
Definition request_restart (d : disk) : disk * list event :=
  if restart_flag d then (d, [RestartRequested])
  else (Disk (shipped d) (combined d) true (writable d),
        [RestartRequested; RestartSignalled]).

(** *** Readiness Broker *)

(** Modelled from the spec: the state of the Readiness Broker (sections 3
    and 4.5), ReadinessState, the queued callbacks and the IdentifierIndex. *)
Record broker := Broker {
  readiness : ReadinessState;
  queue : list callback;
  identifiers : list (string * string)
}.

(** Modelled from the spec: the broker of a process that has just started
    (section 9). *)
Definition fresh : broker := Broker Pending [] [].

(** Modelled from the spec: [on_ready(callback)] (section 4.5). *)
Definition on_ready (cb : callback) (b : broker) : broker * list event :=
  match readiness b with
  | Validated => (b, [Invoked cb])
  | Pending => (Broker Pending (queue b ++ [cb]) (identifiers b), [])
  end.

(** Modelled from the spec: validation succeeds (sections 3 and 4.5): the
    state becomes [Validated], the IdentifierIndex is set and the queued
    callbacks are invoked in registration order.  The transition happens
    once. *)
Definition validate (idx : list (string * string)) (b : broker) : broker * list event :=
  match readiness b with
  | Validated => (b, [])
  | Pending => (Broker Validated [] idx, Invoked <$> queue b)
  end.

(** *** The run *)

(** Modelled from the spec: one run of the pipeline, the state machine of
    section 4.4 with the notifications of section 4.5.
    1. no fragments, no combined catalog: nothing to do;
    2. no fragments, a combined catalog: delete it;
    3. fragments, no (readable) combined catalog: persist, request restart;
    4. fragments, the candidate equals the combined catalog: clear the
       restart flag, validate;
    5. fragments, the candidate differs: persist, request restart.
    The runs that end on path 1, 2 or 4 validate; an unreadable shipped
    catalog aborts the run before anything is written, and a write that
    fails on path 3 or 5 aborts it with a PersistenceError (section 7): no
    restart is requested, nothing is validated and the disk stays as it
    was.  The result is the disk and the broker after the run, and the
    events of the run.
    (The flow chart of the README restarts the client after the deletion of
    path 2; the specification ends that run without a restart, and so does
    this definition.) *)
Definition run (fragments : list (Fragment entry)) (d : disk) (b : broker)
  : disk * broker * list event :=
  match fragments with
  | [] =>
      let '(b', fired) := validate [] b in
      match combined d with
      | None => (d, b', fired)
      | Some _ => (delete_combined d, b', CombinedDeleted :: fired)
      end
  | _ :: _ =>
      let loaded := load_fragments fragments in
      match load_original d with
      | None => (d, b, (Report <$> loaded.2) ++ [Report CatalogReadError])
      | Some original =>
          let m := merge original loaded.1 in
          let c := candidate original fragments in
          let reports := Report <$> (loaded.2 ++ merge_reports m) in
          let rewrite_and_restart :=
            match persist c d with
            | None => (d, b, reports ++ [PersistInvoked c; Report PersistenceError])
            | Some written =>
                let '(d', requested) := request_restart written in
                (d', b, reports ++ [PersistInvoked c] ++ requested)
            end in
          match load_existing_combined d with
          | None => rewrite_and_restart
          | Some existing =>
              if equals c existing
              then
                let '(b', fired) := validate (identifier_index original fragments) b in
                (clear_restart_flag d, b', reports ++ [RestartFlagCleared] ++ fired)
              else rewrite_and_restart
          end
      end
  end.

(** Modelled from the spec: callbacks registered one after the other. *)
Definition register (cbs : list callback) (b : broker) : broker * list event :=
  fold_left (fun st cb => let '(b', evs) := on_ready cb st.1 in (b', st.2 ++ evs))
            cbs (b, []).

(** The items with a string [itemID] of all fragments that parse, in
    enumeration order. *)
Definition well_formed_items (fragments : list (Fragment entry)) : list (string * entry) :=
  fragments ≫= fun f =>
    match parsed f with
    | None => []
    | Some items => omap (fun item => (fun id => (id, content item)) <$> itemID item) items
    end.

(** The first occurrence of every [itemID] that is not in [seen]. *)
Fixpoint first_occurrences (seen : list string) (items : list (string * entry))
  : list (string * entry) :=
  match items with
  | [] => []
  | item :: rest =>
      if decide (item.1 ∈ seen) then first_occurrences seen rest
      else item :: first_occurrences (seen ++ [item.1]) rest
  end.

(** How many entries of a list are about [id]. *)
Definition occurrences {A} (id : string) (l : list (string * A)) : nat :=
  length (filter (fun p => p.1 = id) l).

(** The callbacks invoked, the calls of [request_restart], the restarts
    signalled, the [persist] calls and the reports among the events. *)
Definition invocations (evs : list event) : list callback :=
  omap (fun ev => match ev with Invoked cb => Some cb | _ => None end) evs.

Definition restart_requests (evs : list event) : nat :=
  length (omap (fun ev => match ev with RestartRequested => Some () | _ => None end) evs).

Definition restarts_signalled (evs : list event) : nat :=
  length (omap (fun ev => match ev with RestartSignalled => Some () | _ => None end) evs).

Definition persist_calls (evs : list event) : list (gmap string entry) :=
  omap (fun ev => match ev with PersistInvoked c => Some c | _ => None end) evs.

Definition duplicate_reports (id : string) (errs : list error) : nat :=
  length (filter (fun e => e = DuplicateIdentifierError id) errs).

Definition reported (evs : list event) : list error :=
  omap (fun ev => match ev with Report e => Some e | _ => None end) evs.

Definition write_failed (evs : list event) : bool :=
  bool_decide (PersistenceError ∈ reported evs).



(** *** The allocator always finds a key *)

Lemma pretty_N_go_length x : forall s,
  String.length s <= String.length (pretty_N_go x s).
Proof.
  induction (N.lt_wf_0 x) as [x _ IH]; intros s.
  destruct (decide (x = 0)%N) as [->|Hx].
  - by rewrite pretty_N_go_0.
  - rewrite pretty_N_go_step by lia.
    etrans; [|apply IH; apply N.div_lt; lia]. simpl. lia.
Qed.

Lemma pretty_S_nonempty (n : nat) : pretty (S n) <> "".
Proof.
  unfold pretty, pretty_nat, pretty, pretty_N.
  rewrite decide_False by lia. rewrite pretty_N_go_step by lia.
  intros Hempty.
  pose proof (pretty_N_go_length (N.of_nat (S n) `div` 10)
                (String (pretty_N_char (N.of_nat (S n) `mod` 10)) "")) as Hlen.
  rewrite Hempty in Hlen. simpl in Hlen. lia.
Qed.

Lemma string_app_empty_r (s : string) : s +:+ "" = s.
Proof. induction s as [|a s IH]; [done|]. unfold String.app in *. simpl. by rewrite IH. Qed.

Lemma candidate_key_inj base i j :
  candidate_key base i = candidate_key base j -> i = j.
Proof.
  destruct i as [|i], j as [|j]; cbn [candidate_key]; intros Heq.
  - done.
  - exfalso. apply (pretty_S_nonempty j).
    apply (inj (String.app base)). by rewrite string_app_empty_r.
  - exfalso. apply (pretty_S_nonempty i).
    apply (inj (String.app base)). by rewrite string_app_empty_r.
  - apply (inj (String.app base)) in Heq. by apply (inj pretty) in Heq.
Qed.

Lemma probe_fresh attempts used base : forall n key,
  probe attempts used base n = Some key -> key ∉ used.
Proof.
  induction attempts as [|attempts IH]; intros n key; cbn [probe]; [done|].
  case_decide; [apply IH|]. by intros [= <-].
Qed.

Lemma probe_exhausted attempts used base : forall n,
  probe attempts used base n = None ->
  forall i, n <= i < n + attempts -> candidate_key base i ∈ used.
Proof.
  induction attempts as [|attempts IH]; intros n; cbn [probe]; [lia|].
  case_decide as Hin; [|done]. intros Hrest i Hi.
  destruct (decide (i = n)) as [->|Hne]; [done|].
  apply (IH (S n) Hrest). lia.
Qed.

Lemma probe_finds used base : is_Some (probe (S (size used)) used base 0).
Proof.
  destruct (probe (S (size used)) used base 0) as [key|] eqn:Hprobe; [by eexists|].
  exfalso.
  pose proof (probe_exhausted _ _ _ _ Hprobe) as Hall.
  set (keys := candidate_key base <$> seq 0 (S (size used))).
  assert (Hnodup : NoDup keys).
  { apply NoDup_fmap_2; [|apply NoDup_seq]. intros i j. apply candidate_key_inj. }
  assert (Hsub : list_to_set (C := gset string) keys ⊆ used).
  { intros key [i [-> Hi]]%elem_of_list_to_set%list_elem_of_fmap.
    apply Hall. apply elem_of_seq in Hi. lia. }
  apply subseteq_size in Hsub.
  rewrite size_list_to_set in Hsub by done.
  unfold keys in Hsub. rewrite length_fmap, length_seq in Hsub. lia.
Qed.

Lemma allocate_finds used id e :
  exists key, allocate used id e = Some key /\ key ∉ used.
Proof.
  unfold allocate. destruct (probe_finds used (hash id e)) as [key Hkey].
  exists key. split; [done|]. by eapply probe_fresh.
Qed.


(** *** What the merge builds *)

Lemma merge_snoc original accepted item :
  merge original (accepted ++ [item])
  = merge_item original (merge original accepted) item.
Proof. unfold merge. by rewrite fold_left_app. Qed.

(** The merge of [accepted]: one index entry and one generated entry per
    item, in order, under keys that are new and pairwise distinct. *)
Record merge_spec (original : gmap string entry) (accepted : list (string * entry))
    (m : merged) : Prop := MergeSpec {
  spec_identifiers : (index m).*1 = accepted.*1;
  spec_distinct : NoDup (index m).*2;
  spec_generated : dom (generated m) = list_to_set (index m).*2;
  spec_new : dom (generated m) ## dom original;
  spec_reports : merge_reports m = [];
  spec_entries : forall i id e, accepted !! i = Some (id, e) ->
    exists key, index m !! i = Some (id, key) /\ generated m !! key = Some e
}.

Lemma merge_invariant original accepted :
  merge_spec original accepted (merge original accepted).
Proof.
  clear serialize parse.
  induction accepted as [|[id e] accepted IH] using rev_ind.
  - split; try done; cbn; try constructor; set_solver.
  - rewrite merge_snoc. destruct IH as [Hids Hdistinct Hgen Hnew Hrep Hentries].
    unfold merge_item. cbn [fst snd].
    destruct (allocate_finds (dom original ∪ dom (generated (merge original accepted))) id e)
      as (key & -> & Hfresh).
    apply not_elem_of_union in Hfresh as [Horig Hgenerated].
    split; cbn [index generated merge_reports].
    + by rewrite !fmap_app, Hids.
    + rewrite fmap_app. apply NoDup_app. split; [done|]. split.
      * intros key' Hin Hkey. cbn in Hkey.
        apply list_elem_of_singleton in Hkey as ->.
        apply Hgenerated. rewrite Hgen. by apply elem_of_list_to_set.
      * apply NoDup_singleton.
    + rewrite dom_insert_L, Hgen, fmap_app, list_to_set_app_L. cbn. set_solver.
    + rewrite dom_insert_L. set_solver.
    + done.
    + intros i id' e' Hi.
      assert (Hlen : length (index (merge original accepted)) = length accepted).
      { by rewrite <- (length_fmap fst), Hids, length_fmap. }
      apply lookup_app_Some in Hi as [Hi|[Hge Hi]].
      * destruct (Hentries i id' e' Hi) as (key' & Hidx & Hlook).
        exists key'. split; [by apply lookup_app_l_Some|].
        rewrite lookup_insert_ne; [done|]. intros ->.
        apply Hgenerated. by apply elem_of_dom.
      * apply list_lookup_singleton_Some in Hi as [Hi [= <- <-]].
        exists key. split; [|by rewrite lookup_insert_eq].
        rewrite lookup_app_r by lia.
        replace (i - _) with 0 by lia. done.
Qed.

(** C2.  With N accepted items the merge generates exactly N keys: they are
    pairwise distinct, none of them is a key of the original catalog, and
    the combined catalog is the original catalog, entry by entry unchanged,
    together with the N generated entries. *)
Theorem generated_keys_unique (original : gmap string entry)
    (fragments : list (Fragment entry)) :
  let accepted := (load_fragments fragments).1 in
  let m := merge original accepted in
  length (index m) = length accepted
  /\ size (generated m) = length accepted
  /\ NoDup (index m).*2
  /\ dom (generated m) = list_to_set (index m).*2
  /\ (forall key, key ∈ (index m).*2 -> original !! key = None)
  /\ (forall key e, original !! key = Some e ->
        candidate original fragments !! key = Some e)
  /\ dom (candidate original fragments) = dom original ∪ dom (generated m)
  /\ size (candidate original fragments) = size original + length accepted.
Proof.
  intros accepted m.
  destruct (merge_invariant original accepted) as [Hids Hdistinct Hgen Hnew Hrep Hentries].
  fold m in Hids, Hdistinct, Hgen, Hnew, Hrep, Hentries.
  assert (Hlen : length (index m) = length accepted).
  { by rewrite <- (length_fmap fst), Hids, length_fmap. }
  assert (Hsize : size (generated m) = length accepted).
  { rewrite <- size_dom, Hgen, size_list_to_set by done. by rewrite length_fmap. }
  split; [done|]. split; [done|]. split; [done|]. split; [done|].
  split; [|split; [|split]].
  - intros key Hkey. apply not_elem_of_dom. intros Horig.
    apply (Hnew key); [|done]. rewrite Hgen. by apply elem_of_list_to_set.
  - intros key e Hkey. unfold candidate. fold accepted. fold m.
    by apply lookup_union_Some_l.
  - unfold candidate. fold accepted. fold m. by rewrite dom_union_L.
  - unfold candidate. fold accepted. fold m.
    rewrite map_size_disj_union; [by rewrite Hsize|].
    apply map_disjoint_dom. done.
Qed.

(** *** What the loader accepts *)

Definition well_formed_of (items : list (FragmentItem entry)) : list (string * entry) :=
  omap (fun item => (fun id => (id, content item)) <$> itemID item) items.

Lemma well_formed_of_cons item items :
  well_formed_of (item :: items)
  = match itemID item with
    | Some id => (id, content item) :: well_formed_of items
    | None => well_formed_of items
    end.
Proof. unfold well_formed_of. cbn. by destruct (itemID item). Qed.

Lemma well_formed_items_cons f fragments :
  well_formed_items (f :: fragments)
  = match parsed f with
    | Some items => well_formed_of items
    | None => []
    end ++ well_formed_items fragments.
Proof. reflexivity. Qed.

Lemma first_occurrences_app seen l1 : forall l2,
  first_occurrences seen (l1 ++ l2)
  = first_occurrences seen l1
    ++ first_occurrences (seen ++ (first_occurrences seen l1).*1) l2.
Proof.
  revert seen. induction l1 as [|item l1 IH]; intros seen l2; cbn [first_occurrences app].
  - by rewrite app_nil_r.
  - case_decide; [apply IH|].
    rewrite IH. cbn. by rewrite <- app_assoc.
Qed.

Lemma load_items_accepted src items : forall st,
  (fold_left (load_item src) items st).1
  = st.1 ++ first_occurrences st.1.*1 (well_formed_of items).
Proof.
  induction items as [|item items IH]; intros [accepted errs]; cbn [fold_left].
  - cbn. by rewrite app_nil_r.
  - rewrite IH, well_formed_of_cons. unfold load_item. cbn [fst snd].
    destruct (itemID item) as [id|]; [|done].
    cbn [first_occurrences fst].
    case_decide; cbn [fst]; [done|].
    by rewrite fmap_app, <- app_assoc.
Qed.

Lemma load_fragments_from fragments : forall st,
  (fold_left load_fragment fragments st).1
  = st.1 ++ first_occurrences st.1.*1 (well_formed_items fragments).
Proof.
  induction fragments as [|f fragments IH]; intros st; cbn [fold_left].
  - cbn. by rewrite app_nil_r.
  - rewrite IH, well_formed_items_cons.
    rewrite first_occurrences_app. unfold load_fragment.
    destruct (parsed f) as [items|]; cbn [fst].
    + rewrite load_items_accepted.
      by rewrite <- app_assoc, fmap_app.
    + cbn. by rewrite !app_nil_r.
Qed.

(** The loader accepts the first occurrence of every [itemID]. *)
Lemma load_fragments_accepted fragments :
  (load_fragments fragments).1 = first_occurrences [] (well_formed_items fragments).
Proof. unfold load_fragments. by rewrite load_fragments_from. Qed.

Lemma first_occurrences_filter id items : forall seen,
  filter (fun p => p.1 = id) (first_occurrences seen items)
  = if decide (id ∈ seen) then [] else take 1 (filter (fun p => p.1 = id) items).
Proof.
  clear hash serialize parse.
  induction items as [|[id' e] items IH]; intros seen; cbn [first_occurrences fst].
  - by case_decide.
  - destruct (decide (id' ∈ seen)) as [Hseen|Hnew].
    + rewrite IH. case_decide as Hid; [done|].
      rewrite (filter_cons_False _ (id', e)); [done|].
      cbn. intros ->. done.
    + destruct (decide (id' = id)) as [->|Hne].
      * rewrite !(filter_cons_True _ (id, e)) by done.
        rewrite IH. rewrite decide_True by set_solver.
        by rewrite decide_False.
      * rewrite !(filter_cons_False _ (id', e)) by done.
        rewrite IH. destruct (decide (id ∈ seen)) as [Hid|Hid].
        -- rewrite decide_True by set_solver. done.
        -- rewrite decide_False; [done|]. set_solver.
Qed.

Lemma occurrences_fst {A B} id (l1 : list (string * A)) : forall (l2 : list (string * B)),
  l1.*1 = l2.*1 -> occurrences id l1 = occurrences id l2.
Proof.
  unfold occurrences.
  induction l1 as [|[k a] l1 IH]; intros [|[k' b] l2] Heq; try done.
  injection Heq as -> Heq.
  destruct (decide (k' = id)).
  - rewrite !filter_cons_True by done. cbn. f_equal. by apply IH.
  - rewrite !filter_cons_False by done. by apply IH.
Qed.

(** Every well-formed item is either accepted or reported as a duplicate. *)
Lemma load_items_conservation id src items : forall st,
  duplicate_reports id (fold_left (load_item src) items st).2
  + occurrences id (fold_left (load_item src) items st).1
  = duplicate_reports id st.2 + occurrences id st.1
    + occurrences id (well_formed_of items).
Proof.
  unfold duplicate_reports, occurrences.
  induction items as [|item items IH]; intros [accepted errs]; cbn [fold_left].
  - cbn. lia.
  - rewrite IH, well_formed_of_cons. unfold load_item. cbn [fst snd].
    destruct (itemID item) as [id'|].
    + destruct (decide (id' ∈ accepted.*1)); cbn [fst snd];
        rewrite !filter_app, !length_app;
        destruct (decide (id' = id)) as [->|Hne].
      * rewrite !filter_cons_True by done. cbn. lia.
      * rewrite !filter_cons_False by (cbn; congruence). cbn. lia.
      * rewrite !filter_cons_True by done. cbn. lia.
      * rewrite !filter_cons_False by (cbn; congruence). cbn. lia.
    + cbn [fst snd]. rewrite !filter_app, !length_app.
      rewrite filter_cons_False by done. cbn. lia.
Qed.

Lemma occurrences_app {A} id (l1 l2 : list (string * A)) :
  occurrences id (l1 ++ l2) = occurrences id l1 + occurrences id l2.
Proof. unfold occurrences. by rewrite filter_app, length_app. Qed.

Lemma load_fragments_conservation id fragments : forall st,
  duplicate_reports id (fold_left load_fragment fragments st).2
  + occurrences id (fold_left load_fragment fragments st).1
  = duplicate_reports id st.2 + occurrences id st.1
    + occurrences id (well_formed_items fragments).
Proof.
  induction fragments as [|f fragments IH]; intros st; cbn [fold_left].
  - change (well_formed_items []) with (@nil (string * entry)).
    change (occurrences id (@nil (string * entry))) with 0. lia.
  - rewrite IH, well_formed_items_cons, occurrences_app.
    unfold load_fragment. destruct (parsed f) as [items|].
    + pose proof (load_items_conservation id (source f) items st) as Hitems. lia.
    + cbn [fst snd]. unfold duplicate_reports.
      rewrite filter_app, length_app, filter_cons_False by done.
      change (occurrences id (@nil (string * entry))) with 0. cbn. lia.
Qed.

Lemma identifier_index_accepted original fragments :
  (identifier_index original fragments).*1
  = (first_occurrences [] (well_formed_items fragments)).*1.
Proof.
  unfold identifier_index.
  rewrite (spec_identifiers _ _ _ (merge_invariant original _)).
  by rewrite load_fragments_accepted.
Qed.

Lemma merge_reports_none original accepted : merge_reports (merge original accepted) = [].
Proof. apply (spec_reports _ _ _ (merge_invariant original accepted)). Qed.

Lemma candidate_generated original fragments key e :
  generated (merge original (load_fragments fragments).1) !! key = Some e ->
  candidate original fragments !! key = Some e.
Proof.
  intros Hkey. unfold candidate. apply lookup_union_Some_r; [|done].
  apply map_disjoint_dom. symmetry.
  apply (spec_new _ _ _ (merge_invariant original _)).
Qed.

(** C5.  When an [itemID] is declared by more than one item, in one
    fragment or across fragments, the IdentifierIndex has exactly one entry
    for it, its key holds the content of the first occurrence, every later
    occurrence is reported as a DuplicateIdentifierError (exactly one report
    when there are two occurrences), and the run goes on: the index holds
    the first occurrence of every [itemID] of every parsed fragment. *)
Theorem duplicate_itemID_first_wins (original : gmap string entry)
    (fragments : list (Fragment entry)) (id : string) (first : entry) :
  head (filter (fun p => p.1 = id) (well_formed_items fragments)) = Some (id, first) ->
  let loaded := load_fragments fragments in
  let m := merge original loaded.1 in
  occurrences id (identifier_index original fragments) = 1
  /\ (exists key, (id, key) ∈ identifier_index original fragments
                  /\ candidate original fragments !! key = Some first)
  /\ duplicate_reports id (loaded.2 ++ merge_reports m) + 1
     = occurrences id (well_formed_items fragments)
  /\ (occurrences id (well_formed_items fragments) = 2 ->
      duplicate_reports id (loaded.2 ++ merge_reports m) = 1)
  /\ (identifier_index original fragments).*1
     = (first_occurrences [] (well_formed_items fragments)).*1.
Proof.
  intros Hfirst loaded m.
  pose proof (load_fragments_accepted fragments) as Haccepted. fold loaded in Haccepted.
  assert (Hone : filter (fun p => p.1 = id) loaded.1 = [(id, first)]).
  { rewrite Haccepted, first_occurrences_filter.
    rewrite decide_False by (by intros ?%elem_of_nil).
    destruct (filter _ (well_formed_items fragments)) as [|p rest]; [done|].
    by injection Hfirst as ->. }
  assert (Hocc : occurrences id loaded.1 = 1).
  { unfold occurrences. by rewrite Hone. }
  destruct (merge_invariant original loaded.1) as [Hids _ _ _ Hrep Hentries].
  fold m in Hids, Hrep, Hentries.
  assert (Hdup : duplicate_reports id (loaded.2 ++ merge_reports m) + 1
                 = occurrences id (well_formed_items fragments)).
  { rewrite Hrep, app_nil_r.
    pose proof (load_fragments_conservation id fragments ([], [])) as Hcons.
    fold (load_fragments fragments) in Hcons. fold loaded in Hcons.
    rewrite Hocc in Hcons. cbn in Hcons. lia. }
  split; [|split; [|split; [|split]]].
  - unfold identifier_index. fold loaded. fold m.
    by rewrite (occurrences_fst id (index m) loaded.1).
  - assert (Hin : (id, first) ∈ loaded.1).
    { eapply (list_elem_of_filter (fun p => p.1 = id)).
      rewrite Hone. apply list_elem_of_here. }
    apply list_elem_of_lookup in Hin as [i Hi].
    destruct (Hentries i id first Hi) as (key & Hidx & Hgen).
    exists key. split.
    + unfold identifier_index. fold loaded. fold m.
      by eapply list_elem_of_lookup_2.
    + by apply candidate_generated.
  - done.
  - intros Htwo. lia.
  - apply identifier_index_accepted.
Qed.




(** *** The events of a run *)

Lemma restart_requests_app evs1 evs2 :
  restart_requests (evs1 ++ evs2) = restart_requests evs1 + restart_requests evs2.
Proof. unfold restart_requests. by rewrite omap_app, length_app. Qed.

Lemma restarts_signalled_app evs1 evs2 :
  restarts_signalled (evs1 ++ evs2) = restarts_signalled evs1 + restarts_signalled evs2.
Proof. unfold restarts_signalled. by rewrite omap_app, length_app. Qed.

Lemma persist_calls_app evs1 evs2 :
  persist_calls (evs1 ++ evs2) = persist_calls evs1 ++ persist_calls evs2.
Proof. unfold persist_calls. by rewrite omap_app. Qed.

Lemma invocations_app evs1 evs2 :
  invocations (evs1 ++ evs2) = invocations evs1 ++ invocations evs2.
Proof. unfold invocations. by rewrite omap_app. Qed.

Lemma reported_app evs1 evs2 :
  reported (evs1 ++ evs2) = reported evs1 ++ reported evs2.
Proof. unfold reported. by rewrite omap_app. Qed.

Lemma events_reports errs :
  persist_calls (Report <$> errs) = []
  /\ restart_requests (Report <$> errs) = 0
  /\ invocations (Report <$> errs) = []
  /\ restarts_signalled (Report <$> errs) = 0.
Proof.
  unfold persist_calls, restart_requests, invocations, restarts_signalled.
  induction errs as [|err errs (IH1 & IH2 & IH3 & IH4)]; [done|]. cbn.
  by rewrite IH1, IH3, IH2, IH4.
Qed.

Lemma events_invoked (cbs : list callback) :
  persist_calls (Invoked <$> cbs) = []
  /\ restart_requests (Invoked <$> cbs) = 0
  /\ invocations (Invoked <$> cbs) = cbs.
Proof.
  unfold persist_calls, restart_requests, invocations.
  induction cbs as [|cb cbs (IH1 & IH2 & IH3)]; [done|]. cbn.
  by rewrite IH1, IH3, IH2.
Qed.

Lemma events_validate idx b :
  persist_calls (validate idx b).2 = []
  /\ restart_requests (validate idx b).2 = 0.
Proof.
  unfold validate. destruct (readiness b); cbn [snd]; [|done].
  destruct (events_invoked (queue b)) as (? & ? & _). done.
Qed.

Lemma events_request_restart d :
  persist_calls (request_restart d).2 = []
  /\ restart_requests (request_restart d).2 = 1
  /\ invocations (request_restart d).2 = []
  /\ combined (request_restart d).1 = combined d
  /\ shipped (request_restart d).1 = shipped d
  /\ restarts_signalled (request_restart d).2 = (if restart_flag d then 0 else 1)
  /\ restart_flag (request_restart d).1 = true.
Proof. unfold request_restart. by destruct (restart_flag d) eqn:Hflag. Qed.

(** The run on its paths. *)
Lemma run_no_fragments d b :
  run [] d b
  = (match combined d with None => d | Some _ => delete_combined d end,
     (validate [] b).1,
     match combined d with None => [] | Some _ => [CombinedDeleted] end
       ++ (validate [] b).2).
Proof. unfold run. destruct (validate [] b), (combined d); reflexivity. Qed.

Lemma run_unreadable fragments d b :
  fragments <> [] -> load_original d = None ->
  run fragments d b
  = (d, b, (Report <$> (load_fragments fragments).2) ++ [Report CatalogReadError]).
Proof. intros Hfound Horig. unfold run. destruct fragments; [done|]. by rewrite Horig. Qed.

Lemma run_unchanged fragments d b original :
  fragments <> [] -> load_original d = Some original ->
  load_existing_combined d = Some (candidate original fragments) ->
  run fragments d b
  = (clear_restart_flag d,
     (validate (identifier_index original fragments) b).1,
     (Report <$> ((load_fragments fragments).2
                  ++ merge_reports (merge original (load_fragments fragments).1)))
       ++ [RestartFlagCleared]
       ++ (validate (identifier_index original fragments) b).2).
Proof.
  intros Hfound Horig Hexisting. unfold run. destruct fragments; [done|].
  rewrite Horig, Hexisting. unfold equals. rewrite bool_decide_eq_true_2 by done.
  by destruct (validate _ b).
Qed.

Lemma run_changed fragments d b original :
  fragments <> [] -> load_original d = Some original ->
  load_existing_combined d <> Some (candidate original fragments) ->
  writable d = true ->
  run fragments d b
  = ((request_restart (written (candidate original fragments) d)).1,
     b,
     (Report <$> ((load_fragments fragments).2
                  ++ merge_reports (merge original (load_fragments fragments).1)))
       ++ [PersistInvoked (candidate original fragments)]
       ++ (request_restart (written (candidate original fragments) d)).2).
Proof.
  intros Hfound Horig Hexisting Hwritable. unfold run. destruct fragments; [done|].
  rewrite Horig. unfold persist. rewrite Hwritable.
  destruct (load_existing_combined d) as [existing|].
  - unfold equals. rewrite bool_decide_eq_false_2 by congruence.
    by destruct (request_restart _).
  - by destruct (request_restart _).
Qed.

Lemma run_write_failed fragments d b original :
  fragments <> [] -> load_original d = Some original ->
  load_existing_combined d <> Some (candidate original fragments) ->
  writable d = false ->
  run fragments d b
  = (d, b,
     (Report <$> ((load_fragments fragments).2
                  ++ merge_reports (merge original (load_fragments fragments).1)))
       ++ [PersistInvoked (candidate original fragments); Report PersistenceError]).
Proof.
  intros Hfound Horig Hexisting Hwritable. unfold run. destruct fragments; [done|].
  rewrite Horig. unfold persist. rewrite Hwritable.
  destruct (load_existing_combined d) as [existing|]; [|done].
  unfold equals. by rewrite bool_decide_eq_false_2 by congruence.
Qed.

Lemma write_failed_snoc evs c :
  write_failed (evs ++ [PersistInvoked c; Report PersistenceError]) = true.
Proof.
  unfold write_failed. apply bool_decide_eq_true_2. rewrite reported_app.
  apply elem_of_app. right. cbn. apply list_elem_of_here.
Qed.

(** C3.  With fragments found and a readable combined catalog on disk: when
    the candidate equals it, [persist] is not invoked, no restart is
    requested, the file stays as it is, the restart flag is cleared and the
    state is Validated; when the candidate differs in some entry, [persist]
    is invoked with the candidate and nothing is validated.  If the write
    succeeds, the file holds the candidate, [request_restart] is called
    exactly once and the flag is set; the call signals a restart unless the
    flag was set already.  If the write fails, the disk stays as it was, a
    PersistenceError is reported and no restart is requested. *)
Theorem change_detection (fragments : list (Fragment entry)) (d : disk) (b : broker)
    (original existing : gmap string entry) :
  fragments <> [] ->
  load_original d = Some original ->
  load_existing_combined d = Some existing ->
  (candidate original fragments = existing ->
     persist_calls (run fragments d b).2 = []
     /\ restart_requests (run fragments d b).2 = 0
     /\ combined (run fragments d b).1.1 = combined d
     /\ restart_flag (run fragments d b).1.1 = false
     /\ readiness (run fragments d b).1.2 = Validated)
  /\ ((exists key, candidate original fragments !! key <> existing !! key) ->
      persist_calls (run fragments d b).2 = [candidate original fragments]
      /\ invocations (run fragments d b).2 = []
      /\ readiness (run fragments d b).1.2 = readiness b
      /\ (writable d = true ->
          combined (run fragments d b).1.1 = Some (serialize (candidate original fragments))
          /\ restart_requests (run fragments d b).2 = 1
          /\ restarts_signalled (run fragments d b).2 = (if restart_flag d then 0 else 1)
          /\ restart_flag (run fragments d b).1.1 = true)
      /\ (writable d = false ->
          (run fragments d b).1.1 = d
          /\ write_failed (run fragments d b).2 = true
          /\ restart_requests (run fragments d b).2 = 0
          /\ restarts_signalled (run fragments d b).2 = 0)).
Proof.
  intros Hfound Horig Hexisting. split.
  - intros Hsame. rewrite (run_unchanged _ _ _ original) by congruence.
    cbn [fst snd].
    destruct (events_reports ((load_fragments fragments).2
      ++ merge_reports (merge original (load_fragments fragments).1))) as (Hp & Hr & _).
    destruct (events_validate (identifier_index original fragments) b) as (Hvp & Hvr).
    rewrite !persist_calls_app, !restart_requests_app, Hp, Hr, Hvp, Hvr.
    repeat split; try done.
    unfold validate. by destruct (readiness b) eqn:Hb.
  - intros (key & Hkey).
    assert (Hdiffers : load_existing_combined d <> Some (candidate original fragments)).
    { rewrite Hexisting. intros [= Heq]. apply Hkey. by rewrite Heq. }
    destruct (events_reports ((load_fragments fragments).2
      ++ merge_reports (merge original (load_fragments fragments).1)))
      as (Hp & Hr & Hi & Hs).
    destruct (writable d) eqn:Hwritable.
    + rewrite (run_changed _ _ _ original) by done. cbn [fst snd].
      destruct (events_request_restart (written (candidate original fragments) d))
        as (Hqp & Hqr & Hqi & Hqc & _ & Hqs & Hqf).
      rewrite !persist_calls_app, !restart_requests_app, !invocations_app,
        !restarts_signalled_app.
      rewrite Hp, Hr, Hi, Hs, Hqp, Hqr, Hqi, Hqc, Hqs, Hqf.
      repeat split; try done.
    + rewrite (run_write_failed _ _ _ original) by done. cbn [fst snd].
      rewrite write_failed_snoc.
      rewrite !persist_calls_app, !restart_requests_app, !invocations_app,
        !restarts_signalled_app.
      rewrite Hp, Hr, Hi, Hs. repeat split; try done.
Qed.

Lemma events_unreadable errs :
  persist_calls ((Report <$> errs) ++ [Report CatalogReadError]) = []
  /\ restart_requests ((Report <$> errs) ++ [Report CatalogReadError]) = 0
  /\ invocations ((Report <$> errs) ++ [Report CatalogReadError]) = [].
Proof.
  destruct (events_reports errs) as (Hp & Hr & Hi & _).
  by rewrite persist_calls_app, restart_requests_app, invocations_app, Hp, Hr, Hi.
Qed.

(** *** Readiness *)

Lemma register_from cbs : forall b evs,
  fold_left (fun st cb => let '(b', evs') := on_ready cb st.1 in (b', st.2 ++ evs'))
            cbs (b, evs)
  = match readiness b with
    | Pending => (Broker Pending (queue b ++ cbs) (identifiers b), evs)
    | Validated => (b, evs ++ (Invoked <$> cbs))
    end.
Proof.
  induction cbs as [|cb cbs IH]; intros [state q idx] evs; cbn [fold_left].
  - destruct state; cbn; by rewrite app_nil_r.
  - unfold on_ready at 2. cbn [fst snd readiness queue identifiers].
    destruct state.
    + rewrite IH. cbn [readiness queue identifiers]. by rewrite app_nil_r, <- app_assoc.
    + rewrite IH. cbn [readiness]. by rewrite <- app_assoc.
Qed.

Lemma register_pending cbs b :
  readiness b = Pending ->
  register cbs b = (Broker Pending (queue b ++ cbs) (identifiers b), []).
Proof. intros Hb. unfold register. by rewrite register_from, Hb. Qed.

(** What a run does to the broker: it validates and requests no restart,
    or it leaves the broker alone and invokes nothing. *)
Lemma run_broker fragments d b :
  (exists idx,
      (run fragments d b).1.2 = (validate idx b).1
      /\ invocations (run fragments d b).2 = invocations (validate idx b).2
      /\ restart_requests (run fragments d b).2 = 0)
  \/ ((run fragments d b).1.2 = b /\ invocations (run fragments d b).2 = []).
Proof.
  destruct (decide (fragments = [])) as [->|Hfound].
  { left. exists []. rewrite run_no_fragments. cbn [fst snd].
    destruct (events_validate [] b) as (_ & Hr).
    rewrite invocations_app, restart_requests_app, Hr.
    by destruct (combined d). }
  destruct (load_original d) as [original|] eqn:Horig.
  2:{ right. rewrite run_unreadable by done. cbn [fst snd].
      by destruct (events_unreadable (load_fragments fragments).2) as (_ & _ & ?). }
  destruct (events_reports ((load_fragments fragments).2
    ++ merge_reports (merge original (load_fragments fragments).1))) as (_ & Hr & Hi & _).
  destruct (decide (load_existing_combined d = Some (candidate original fragments)))
    as [Hsame|Hdiffers].
  - left. exists (identifier_index original fragments).
    rewrite (run_unchanged fragments d b original) by done. cbn [fst snd].
    destruct (events_validate (identifier_index original fragments) b) as (_ & Hvr).
    by rewrite !invocations_app, !restart_requests_app, Hr, Hi, Hvr.
  - right. destruct (writable d) eqn:Hwritable.
    + rewrite (run_changed fragments d b original) by done. cbn [fst snd].
      destruct (events_request_restart (written (candidate original fragments) d))
        as (_ & _ & Hqi & _).
      by rewrite !invocations_app, Hi, Hqi.
    + rewrite (run_write_failed fragments d b original) by done. cbn [fst snd].
      by rewrite !invocations_app, Hi.
Qed.

(** C4.  Callbacks registered with [on_ready] before the run are not invoked
    at registration; when the run validates they are invoked in that run,
    each once and in registration order, the queue is left empty, and a
    callback registered afterwards is invoked at once; when the run requests
    a restart instead, nothing is invoked by the run and nothing registered
    afterwards is invoked either. *)
Theorem readiness_ordering (fragments : list (Fragment entry)) (d : disk)
    (pre : list callback) :
  register pre fresh = (Broker Pending pre [], [])
  /\ (readiness (run fragments d (register pre fresh).1).1.2 = Validated ->
      invocations (run fragments d (register pre fresh).1).2 = pre
      /\ restart_requests (run fragments d (register pre fresh).1).2 = 0
      /\ queue (run fragments d (register pre fresh).1).1.2 = []
      /\ forall cb,
           on_ready cb (run fragments d (register pre fresh).1).1.2
           = ((run fragments d (register pre fresh).1).1.2, [Invoked cb]))
  /\ (restart_requests (run fragments d (register pre fresh).1).2 <> 0 ->
      invocations (run fragments d (register pre fresh).1).2 = []
      /\ readiness (run fragments d (register pre fresh).1).1.2 = Pending
      /\ forall post,
           invocations (register post (run fragments d (register pre fresh).1).1.2).2 = []).
Proof.
  assert (Hpre : register pre fresh = (Broker Pending pre [], [])).
  { by rewrite register_pending. }
  rewrite Hpre. cbn [fst]. split; [done|].
  destruct (run_broker fragments d (Broker Pending pre []))
    as [(idx & Hb & Hi & Hr)|(Hb & Hi)]; rewrite Hb, Hi.
  - cbn [validate readiness queue fst snd].
    destruct (events_invoked pre) as (_ & _ & Hinv). rewrite Hinv, Hr.
    split; [|done]. intros _. done.
  - cbn [readiness]. split; [done|]. intros _.
    split; [done|]. split; [done|]. intros post.
    by rewrite register_pending.
Qed.

(** *** Running twice *)


End Pipeline.

(** *** A worked configuration *)

(** Entries are flat objects, the catalog file holds the catalog itself,
    callbacks are numbered, and the hash is the length of the [itemID], so
    that keys collide. *)
Definition toy_entry : Type := list (string * string).

Definition toy_hash (id : string) (e : toy_entry) : string :=
  pretty (String.length id).

Definition toy_serialize (c : gmap string toy_entry) : gmap string toy_entry := c.

Definition toy_parse (file : gmap string toy_entry) : option (gmap string toy_entry) :=
  Some file.


Definition toy_original : gmap string toy_entry :=
  {[ "7" := [("type", "Image")] ]}.

Definition toy_fragments : list (Fragment toy_entry) :=
  [ FragmentFile "mods/configs/res_map/a.json"
      (Some [ Item (Some "dup/key") [("v", "1")]; Item (Some "a/x") [("v", "1")] ]);
    FragmentFile "mods/configs/res_map/broken.json" None;
    FragmentFile "mods/configs/res_map/b.json"
      (Some [ Item (Some "dup/key") [("v", "2")]; Item None [("v", "3")] ]) ].







(** A disk whose combined catalog is up to date, one where it is stale, one
    where it is stale and a restart has been requested already, and one
    where it is stale and cannot be written. *)
Definition disk_up_to_date : disk (bytes := gmap string toy_entry) :=
  Disk (Some toy_original) (Some (candidate toy_hash toy_original toy_fragments)) true true.

Definition disk_stale : disk (bytes := gmap string toy_entry) :=
  Disk (Some toy_original) (Some toy_original) false true.

Definition disk_stale_flagged : disk (bytes := gmap string toy_entry) :=
  Disk (Some toy_original) (Some toy_original) true true.

Definition disk_unwritable : disk (bytes := gmap string toy_entry) :=
  Disk (Some toy_original) (Some toy_original) false false.

Example toy_identifier_index :
  identifier_index toy_hash toy_original toy_fragments
  = [("dup/key", "71"); ("a/x", "3")].
Proof. vm_compute. reflexivity. Qed.



Lemma change_detection_witness :
  persist_calls (run toy_hash toy_serialize toy_parse toy_fragments disk_up_to_date
                     (fresh (callback := nat))).2 = []
  /\ restart_requests (run toy_hash toy_serialize toy_parse toy_fragments disk_stale
                           (fresh (callback := nat))).2 = 1
  /\ restarts_signalled (run toy_hash toy_serialize toy_parse toy_fragments disk_stale
                             (fresh (callback := nat))).2 = 1
  /\ restart_requests (run toy_hash toy_serialize toy_parse toy_fragments disk_unwritable
                           (fresh (callback := nat))).2 = 0.
Proof.
  split; [|split; [|split]].
  - destruct (change_detection toy_hash toy_serialize toy_parse toy_fragments
                disk_up_to_date (fresh (callback := nat)) toy_original
                (candidate toy_hash toy_original toy_fragments))
      as [Hsame _]; [done|reflexivity|reflexivity|].
    by destruct (Hsame eq_refl).
  - destruct (change_detection toy_hash toy_serialize toy_parse toy_fragments
                disk_stale (fresh (callback := nat)) toy_original toy_original)
      as [_ Hdiffers]; [done|reflexivity|reflexivity|].
    destruct Hdiffers as (_ & _ & _ & Hwritten & _); [exists "3"; vm_compute; discriminate|].
    by destruct (Hwritten eq_refl) as (_ & Hrestart & _).
  - destruct (change_detection toy_hash toy_serialize toy_parse toy_fragments
                disk_stale (fresh (callback := nat)) toy_original toy_original)
      as [_ Hdiffers]; [done|reflexivity|reflexivity|].
    destruct Hdiffers as (_ & _ & _ & Hwritten & _); [exists "3"; vm_compute; discriminate|].
    by destruct (Hwritten eq_refl) as (_ & _ & Hsignalled & _).
  - destruct (change_detection toy_hash toy_serialize toy_parse toy_fragments
                disk_unwritable (fresh (callback := nat)) toy_original toy_original)
      as [_ Hdiffers]; [done|reflexivity|reflexivity|].
    destruct Hdiffers as (_ & _ & _ & _ & Hfailed); [exists "3"; vm_compute; discriminate|].
    by destruct (Hfailed eq_refl) as (_ & _ & Hrestart & _).
Defined.

(** The candidate differs from the catalog on disk and [persist] is
    invoked, but the write fails: no restart is requested.  And on a disk
    whose RestartFlag is set, the write succeeds and [request_restart] is
    called once, but no restart is signalled. *)
Lemma change_detection_without_restart :
  candidate toy_hash toy_original toy_fragments !! "3" <> toy_original !! "3"
  /\ persist_calls (run toy_hash toy_serialize toy_parse toy_fragments disk_unwritable
                        (fresh (callback := nat))).2
     = [candidate toy_hash toy_original toy_fragments]
  /\ restart_requests (run toy_hash toy_serialize toy_parse toy_fragments disk_unwritable
                           (fresh (callback := nat))).2 = 0
  /\ restarts_signalled (run toy_hash toy_serialize toy_parse toy_fragments disk_unwritable
                             (fresh (callback := nat))).2 = 0
  /\ persist_calls (run toy_hash toy_serialize toy_parse toy_fragments disk_stale_flagged
                        (fresh (callback := nat))).2
     = [candidate toy_hash toy_original toy_fragments]
  /\ restart_requests (run toy_hash toy_serialize toy_parse toy_fragments disk_stale_flagged
                           (fresh (callback := nat))).2 = 1
  /\ restarts_signalled (run toy_hash toy_serialize toy_parse toy_fragments
                             disk_stale_flagged (fresh (callback := nat))).2 = 0.
Proof. vm_compute. repeat split; try reflexivity. discriminate. Qed.

Lemma readiness_ordering_witness :
  invocations (run toy_hash toy_serialize toy_parse toy_fragments disk_up_to_date
                   (register (entry := toy_entry) [1; 2; 3] fresh).1).2 = [1; 2; 3]
  /\ invocations (run toy_hash toy_serialize toy_parse toy_fragments disk_stale
                      (register (entry := toy_entry) [1; 2; 3] fresh).1).2 = [].
Proof.
  split.
  - destruct (readiness_ordering toy_hash toy_serialize toy_parse toy_fragments
                disk_up_to_date [1; 2; 3]) as (_ & Hvalidated & _).
    destruct Hvalidated as (Hinvoked & _); [vm_compute; reflexivity|exact Hinvoked].
  - destruct (readiness_ordering toy_hash toy_serialize toy_parse toy_fragments
                disk_stale [1; 2; 3]) as (_ & _ & Hrestart).
    destruct Hrestart as (Hnone & _); [vm_compute; discriminate|exact Hnone].
Defined.

Lemma duplicate_itemID_first_wins_witness :
  occurrences "dup/key" (identifier_index toy_hash toy_original toy_fragments) = 1
  /\ duplicate_reports "dup/key"
       ((load_fragments toy_fragments).2
        ++ merge_reports (merge toy_hash toy_original (load_fragments toy_fragments).1)) = 1.
Proof.
  destruct (duplicate_itemID_first_wins toy_hash toy_original toy_fragments
              "dup/key" [("v", "1")]) as (Hone & _ & _ & Herrors & _);
    [vm_compute; reflexivity|].
  split; [exact Hone|]. apply Herrors. vm_compute. reflexivity.
Defined.



End ResMap.
